(** * Tools/autotest/common.py: the condition-evaluation core of the autotest
      harness, as a shallow embedding.

    Python floats are modelled as exact rationals ([Q]): the properties below
    are about control flow, ordering of side effects and comparisons, never
    about rounding.  The two external collaborators of the harness are
    modelled as explicit state:
    - [self.mavproxy] (the MAVProxy console, a pexpect child) in [Params];
    - [self.mav] (the pymavlink connection) in [Mav]. *)

From Stdlib Require Import QArith Qabs Lqa ZArith Lia List String.
From stdpp Require Import gmap strings list fin_maps.

(** The exception classes of common.py that the embedded functions raise,
    plus the Python built-ins they can raise. *)
Inductive exn :=
| ValueError
| TypeError
| IndexError
| WaitHeadingTimeout
| WaitDistanceTimeout
| WaitLocationTimeout
| WaitWaypointTimeout
| YawSpeedNotAchievedException
| SpeedVectorNotAchievedException.

(** [returned_value == float(value)]: a read-back of [None] (every fetch timed
    out) is never equal to a float. *)
Definition float_eq (returned_value : option Q) (value : Q) : bool :=
  match returned_value with
  | Some r => Qeq_bool r value
  | None => false
  end.

Module Params.

(** ** The MAVProxy console *)

(** Lines the harness writes to the console. *)
Inductive console_cmd :=
| ParamSet (name : string) (value : option Q)
| ParamFetch (name : string).

(** What the vehicle does with one [param set]: it may store the value,
    silently drop the write, or store a coerced value. *)
Inductive write_fate := Stored | Dropped | Coerced (q : Q).

(** What the console does with one [expect] after a [param fetch]: the line
    arrives, or [pexpect.TIMEOUT] is raised. *)
Inductive read_fate := Answered | TimedOut.

(** [params] is the vehicle's parameter table; [writes] and [reads] script the
    fate of the coming console interactions (an exhausted script means a
    reliable link); [sent] logs every line written, oldest first. *)
Record MAVProxy := mkMAVProxy {
  params : gmap string Q;
  writes : list write_fate;
  reads : list read_fate;
  sent : list console_cmd
}.

(** A parameter that the vehicle does not have cannot be created. *)
Definition store (name : string) (v : Q) (t : gmap string Q) : gmap string Q :=
  alter (fun _ => v) name t.

(** [self.mavproxy.send(...)]. A [param set] whose value does not parse as a
    number (Python's [str(None)]) changes nothing on the vehicle. *)
Definition send (c : console_cmd) (p : MAVProxy) : MAVProxy :=
  match c with
  | ParamSet name (Some v) =>
      match writes p with
      | [] => mkMAVProxy (store name v (params p)) [] (reads p) (sent p ++ [c])
      | Stored :: ws => mkMAVProxy (store name v (params p)) ws (reads p) (sent p ++ [c])
      | Dropped :: ws => mkMAVProxy (params p) ws (reads p) (sent p ++ [c])
      | Coerced q :: ws => mkMAVProxy (store name q (params p)) ws (reads p) (sent p ++ [c])
      end
  | _ => mkMAVProxy (params p) (writes p) (reads p) (sent p ++ [c])
  end.

(** [self.mavproxy.expect] of the line [name = number], followed by
    [float(self.mavproxy.match.group(1))]; [None] stands for
    [pexpect.TIMEOUT]. *)
Definition expect (name : string) (p : MAVProxy) : option Q * MAVProxy :=
  match reads p with
  | [] => (params p !! name, p)
  | Answered :: rs => (params p !! name, mkMAVProxy (params p) (writes p) rs (sent p))
  | TimedOut :: rs => (None, mkMAVProxy (params p) (writes p) rs (sent p))
  end.

(** ** The test session *)

Inductive result (A : Type) :=
| Done (a : A)
| Raise (e : exn).
Arguments Done {A} a.
Arguments Raise {A} e.

(** [class Context]: [self.parameters = []], a list of [(name, old_value)]
    tuples, newest last. [old_value] is [None] when the fetch timed out. *)
Record Context := mkContext { parameters : list (string * option Q) }.

Record AutoTest := mkAutoTest {
  mavproxy : MAVProxy;
  contexts : list Context
}.

(** [get_parameter(self, name, retry=1, timeout=60)]: falls off the end of the
    [for] loop, returning [None], when every try timed out. *)
Fixpoint get_parameter (name : string) (retry : nat) (p : MAVProxy)
  : option Q * MAVProxy :=
  match retry with
  | O => (None, p)
  | S k =>
      match expect name (send (ParamFetch name) p) with
      | (Some q, p') => (Some q, p')
      | (None, p') => get_parameter name k p'
      end
  end.

(** [self.context_get().parameters.append(entry)]; [self.contexts[-1]] raises
    [IndexError] on an empty stack. *)
Definition context_append (entry : string * option Q) (cs : list Context)
  : option (list Context) :=
  match last cs with
  | Some c => Some (removelast cs ++ [mkContext (parameters c ++ [entry])])
  | None => None
  end.

(** The body of [for i in range(1, 10)] in [set_parameter], [budget]
    iterations still to go. [float(value)] raises [TypeError] on [None]. *)
Fixpoint set_parameter_loop (budget : nat) (name : string) (value old_value : option Q)
    (add_to_context : bool) (s : AutoTest) : result unit * AutoTest :=
  match budget with
  | O => (Raise ValueError, s)
  | S k =>
      let (returned_value, p) :=
        get_parameter name 1 (send (ParamSet name value) (mavproxy s)) in
      match value with
      | None => (Raise TypeError, mkAutoTest p (contexts s))
      | Some v =>
          if float_eq returned_value v then
            if add_to_context then
              match context_append (name, old_value) (contexts s) with
              | Some cs => (Done tt, mkAutoTest p cs)
              | None => (Raise IndexError, mkAutoTest p (contexts s))
              end
            else (Done tt, mkAutoTest p (contexts s))
          else set_parameter_loop k name value old_value add_to_context
                 (mkAutoTest p (contexts s))
      end
  end.

(** [range(1, 10)] has nine elements. *)
Definition retry_budget : nat := 9.

(** [set_parameter(self, name, value, add_to_context=True)]. *)
Definition set_parameter (name : string) (value : option Q) (add_to_context : bool)
    (s : AutoTest) : result unit * AutoTest :=
  let (old_value, p) := get_parameter name 2 (mavproxy s) in
  set_parameter_loop retry_budget name value old_value add_to_context
    (mkAutoTest p (contexts s)).

(** [context_push]. *)
Definition context_push (s : AutoTest) : AutoTest :=
  mkAutoTest (mavproxy s) (contexts s ++ [mkContext []]).

(** The [for p in dead_parameters] loop of [context_pop]: an exception raised
    by [set_parameter] leaves the loop. *)
Fixpoint restore (ps : list (string * option Q)) (s : AutoTest)
  : result unit * AutoTest :=
  match ps with
  | [] => (Done tt, s)
  | (name, old_value) :: rest =>
      match set_parameter name old_value false s with
      | (Done _, s') => restore rest s'
      | (Raise e, s') => (Raise e, s')
      end
  end.

(** [context_pop]: [self.contexts.pop()] raises [IndexError] on an empty
    stack. *)
Definition context_pop (s : AutoTest) : result unit * AutoTest :=
  match last (contexts s) with
  | None => (Raise IndexError, s)
  | Some dead =>
      restore (rev (parameters dead))
        (mkAutoTest (mavproxy s) (removelast (contexts s)))
  end.

(** ** Vocabulary of the statements *)

(** The successive read-backs that [budget] turns of the loop of
    [set_parameter] obtain when none of them stops the loop. *)
Fixpoint readbacks (budget : nat) (name : string) (value : option Q) (p : MAVProxy)
  : list (option Q) :=
  match budget with
  | O => []
  | S k =>
      let (returned_value, p') := get_parameter name 1 (send (ParamSet name value) p) in
      returned_value :: readbacks k name value p'
  end.

(** A test phase that only writes parameters: the calls
    [set_parameter(name, value)] of [ops], in order, up to the first one that
    raises. *)
Fixpoint set_parameters (ops : list (string * Q)) (s : AutoTest)
  : result unit * AutoTest :=
  match ops with
  | [] => (Done tt, s)
  | (name, value) :: rest =>
      match set_parameter name (Some value) true s with
      | (Done _, s') => set_parameters rest s'
      | (Raise e, s') => (Raise e, s')
      end
  end.

(** The value that [set_parameter] reads before its first write:
    [old_value = self.get_parameter(name, retry=2)]. *)
Definition old_value_of (name : string) (s : AutoTest) : option Q :=
  fst (get_parameter name 2 (mavproxy s)).

(** Sessions to run the functions on. The link of [reliable] never fails,
    the one of [lossy] drops the first [n] writes. [session p recorded] has
    the empty context that [__init__] pushes and, on top of it, a context
    that has recorded [recorded]. *)
Definition reliable (table : gmap string Q) : MAVProxy :=
  mkMAVProxy table [] [] [].

Definition lossy (table : gmap string Q) (n : nat) : MAVProxy :=
  mkMAVProxy table (repeat Dropped n) [] [].

Definition session (p : MAVProxy) (recorded : list (string * option Q)) : AutoTest :=
  mkAutoTest p [mkContext []; mkContext recorded].

(** A restore of the pair was attempted: its [param set] line was written. *)
Definition attempted (entry : string * option Q) (s : AutoTest) : Prop :=
  In (ParamSet (fst entry) (snd entry)) (sent (mavproxy s)).

End Params.

Module Mav.

Local Open Scope Q_scope.

(** ** The pymavlink connection *)

(** [mavutil.location]. *)
Record location := mkLocation { lat : Q; lng : Q; alt : Q }.

(** The message types the embedded functions ask for, with the fields they
    read. [POSITION] stands for the telemetry that [self.mav.location()]
    decodes into a [mavutil.location]. *)
Inductive mtype :=
| tSYSTEM_TIME
| tVFR_HUD
| tATTITUDE
| tLOCAL_POSITION_NED
| tPOSITION
| tMISSION_CURRENT
| tNAV_CONTROLLER_OUTPUT
| tHEARTBEAT
| tCOMMAND_ACK.

Inductive msg :=
| SYSTEM_TIME (time_boot_ms : Z)
| VFR_HUD (heading : Q) (alt : Q)
| ATTITUDE (yawspeed : Q)
| LOCAL_POSITION_NED (vx vy vz : Q)
| POSITION (loc : location)
| MISSION_CURRENT (seq : Z)
| NAV_CONTROLLER_OUTPUT (wp_dist : Q)
| HEARTBEAT (flightmode : string)
| COMMAND_ACK (command : Z) (result : Z).

Definition get_type (m : msg) : mtype :=
  match m with
  | SYSTEM_TIME _ => tSYSTEM_TIME
  | VFR_HUD _ _ => tVFR_HUD
  | ATTITUDE _ => tATTITUDE
  | LOCAL_POSITION_NED _ _ _ => tLOCAL_POSITION_NED
  | POSITION _ => tPOSITION
  | MISSION_CURRENT _ => tMISSION_CURRENT
  | NAV_CONTROLLER_OUTPUT _ => tNAV_CONTROLLER_OUTPUT
  | HEARTBEAT _ => tHEARTBEAT
  | COMMAND_ACK _ _ => tCOMMAND_ACK
  end.

Definition mtype_eqb (a b : mtype) : bool :=
  match a, b with
  | tSYSTEM_TIME, tSYSTEM_TIME | tVFR_HUD, tVFR_HUD | tATTITUDE, tATTITUDE
  | tLOCAL_POSITION_NED, tLOCAL_POSITION_NED | tPOSITION, tPOSITION
  | tMISSION_CURRENT, tMISSION_CURRENT
  | tNAV_CONTROLLER_OUTPUT, tNAV_CONTROLLER_OUTPUT
  | tHEARTBEAT, tHEARTBEAT | tCOMMAND_ACK, tCOMMAND_ACK => true
  | _, _ => false
  end.

(** Field access [m.field]; a message of [recv_match(type=...)] always has the
    fields of its type, the default is never read. *)
Definition msg_time_boot_ms (m : msg) : Z :=
  match m with SYSTEM_TIME t => t | _ => 0%Z end.
Definition msg_heading (m : msg) : Q :=
  match m with VFR_HUD h _ => h | _ => 0 end.
Definition msg_alt (m : msg) : Q :=
  match m with VFR_HUD _ a => a | _ => 0 end.
Definition msg_yawspeed (m : msg) : Q :=
  match m with ATTITUDE y => y | _ => 0 end.
Definition msg_vx (m : msg) : Q :=
  match m with LOCAL_POSITION_NED x _ _ => x | _ => 0 end.
Definition msg_vy (m : msg) : Q :=
  match m with LOCAL_POSITION_NED _ y _ => y | _ => 0 end.
Definition msg_vz (m : msg) : Q :=
  match m with LOCAL_POSITION_NED _ _ z => z | _ => 0 end.
Definition msg_loc (m : msg) : location :=
  match m with POSITION l => l | _ => mkLocation 0 0 0 end.
Definition msg_command (m : msg) : Z :=
  match m with COMMAND_ACK c _ => c | _ => 0%Z end.
Definition msg_result (m : msg) : Z :=
  match m with COMMAND_ACK _ r => r | _ => 0%Z end.

(** Messages the harness sends on the typed channel. *)
Inductive out_msg :=
| COMMAND_LONG (target_system target_component command confirmation : Z)
    (p1 p2 p3 p4 p5 p6 p7 : Q)
| SET_POSITION_TARGET (fields : list Q).

(** [inbox]: the messages still to arrive, in order of arrival;
    [flightmode]: the attribute pymavlink refreshes from every heartbeat it
    reads; [outbox]: what has been sent, oldest first. *)
Record mavlink := mkMavlink {
  inbox : list msg;
  flightmode : string;
  outbox : list out_msg
}.

(** A call either returns, raises, or never comes back: a blocking
    [recv_match] on a connection that delivers nothing more. *)
Inductive outcome (A : Type) :=
| Return (a : A)
| Raised (e : exn)
| Blocked.
Arguments Return {A} a.
Arguments Raised {A} e.
Arguments Blocked {A}.

Definition M (A : Type) : Type := mavlink -> outcome A * mavlink.

Definition ret {A : Type} (a : A) : M A := fun c => (Return a, c).
Definition raise {A : Type} (e : exn) : M A := fun c => (Raised e, c).
Definition block {A : Type} : M A := fun c => (Blocked, c).
Definition bind {A B : Type} (m : M A) (k : A -> M B) : M B :=
  fun c =>
    match m c with
    | (Return a, c') => k a c'
    | (Raised e, c') => (Raised e, c')
    | (Blocked, c') => (Blocked, c')
    end.

Notation "x <- m ;; k" := (bind m (fun x => k))
  (at level 100, m at next level, right associativity).
Notation "m ;;; k" := (bind m (fun _ => k))
  (at level 100, right associativity).

(** pymavlink updates [flightmode] from each heartbeat it parses, whether or
    not the caller asked for it. *)
Definition post_message (m : msg) (fm : string) : string :=
  match m with HEARTBEAT mode => mode | _ => fm end.

(** [recv_match(type=ty, blocking=True)]: messages of other types are read
    and dropped. *)
Fixpoint recv_loop (ty : mtype) (l : list msg) (fm : string)
  : option msg * (list msg * string) :=
  match l with
  | [] => (None, ([], fm))
  | m :: l' =>
      if mtype_eqb (get_type m) ty then (Some m, (l', post_message m fm))
      else recv_loop ty l' (post_message m fm)
  end.

Definition recv_match (ty : mtype) : M msg :=
  fun c =>
    match recv_loop ty (inbox c) (flightmode c) with
    | (Some m, (l, fm)) => (Return m, mkMavlink l fm (outbox c))
    | (None, (l, fm)) => (Blocked, mkMavlink l fm (outbox c))
    end.

Definition send (o : out_msg) : M unit :=
  fun c => (Return tt, mkMavlink (inbox c) (flightmode c) (outbox c ++ [o])).

Definition get_flightmode : M string :=
  fun c => (Return (flightmode c), c).

(** A per-tick action: the callers pass closures that only send. *)
Definition action : Type := list out_msg -> list out_msg.

(** [if the_function is not None: the_function()]. *)
Definition call (the_function : option action) : M unit :=
  fun c =>
    match the_function with
    | Some f => (Return tt, mkMavlink (inbox c) (flightmode c) (f (outbox c)))
    | None => (Return tt, c)
    end.

(** [m.time_boot_ms * 1.0e-3], as the exact rational; the code's value is
    the nearest float. Comparisons of times stated with the margin of
    [millisecond] below do not depend on the difference. *)
Definition seconds (ms : Z) : Q := inject_Z ms * (1 # 1000).

(** [get_sim_time]. *)
Definition get_sim_time : M Q :=
  m <- recv_match tSYSTEM_TIME ;; ret (seconds (msg_time_boot_ms m)).

(** [self.mav.location()]. *)
Definition mav_location : M location :=
  m <- recv_match tPOSITION ;; ret (msg_loc m).


(** Python's [<] on floats. *)
Definition Qlt_bool (x y : Q) : bool := negb (Qle_bool y x).

(** ** The command protocol *)

(** The [while True] loop of [run_cmd]. *)
Fixpoint run_cmd_loop (fuel : nat) (command want_result : Z) : M unit :=
  match fuel with
  | O => block
  | S fuel' =>
      m <- recv_match tCOMMAND_ACK ;;
      if (msg_command m =? command)%Z then
        if negb (msg_result m =? want_result)%Z then raise ValueError
        else ret tt
      else run_cmd_loop fuel' command want_result
  end.

(** [run_cmd(self, command, p1, ..., p7, want_result)]. Every turn of the
    loop reads a message, so one more turn than there are messages is enough
    to run the loop to its end. *)
Definition run_cmd (command : Z) (p1 p2 p3 p4 p5 p6 p7 : Q) (want_result : Z)
  : M unit :=
  fun c =>
    (send (COMMAND_LONG 1 1 command 1 p1 p2 p3 p4 p5 p6 p7) ;;;
     run_cmd_loop (S (length (inbox c))) command want_result) c.

(** ** The waits *)

Section Waits.

(** [math.degrees] and [math.sqrt]: irrational in general, so they are taken
    as given. *)
Variable degrees : Q -> Q.
Variable sqrt : Q -> Q.

(** The test of [wait_heading]: Python's [and] binds tighter than [or]. *)
Definition heading_test (last_heading heading accuracy : Q) : bool :=
  Qle_bool (Qabs (last_heading - heading)) accuracy
  || (Qle_bool heading accuracy && Qle_bool (Qabs (last_heading - 360)) accuracy).

(** The [while] loop of [wait_heading]. The value returned is the heading
    that the final progress line reports (the Python function returns
    [True]). *)
Fixpoint wait_heading_loop (fuel : nat)
    (heading accuracy maintain_target_time timeout : Q)
    (the_function : option action)
    (tstart : Q) (duration_start : option Q) (mean_heading counter : Q) : M Q :=
  match fuel with
  | O => block
  | S fuel' =>
      now <- get_sim_time ;;
      if Qlt_bool now (tstart + timeout) then
        call the_function ;;;
        m <- recv_match tVFR_HUD ;;
        let last_heading := msg_heading m in
        if heading_test last_heading heading accuracy then
          let mean_heading := mean_heading + last_heading in
          let counter := counter + 1 in
          duration_start <-
            match duration_start with
            | None => get_sim_time
            | Some d => ret d
            end ;;
          now <- get_sim_time ;;
          if Qlt_bool maintain_target_time (now - duration_start) then
            ret (if Qle_bool accuracy heading then mean_heading / counter
                 else msg_heading m)
          else
            wait_heading_loop fuel' heading accuracy maintain_target_time timeout
              the_function tstart (Some duration_start) mean_heading counter
        else
          wait_heading_loop fuel' heading accuracy maintain_target_time timeout
            the_function tstart None 0 0
      else raise WaitHeadingTimeout
  end.

(** [wait_heading(self, heading, accuracy=5, maintain_target_time=0,
    timeout=30, the_function=None)]. *)
Definition wait_heading (heading accuracy maintain_target_time timeout : Q)
    (the_function : option action) : M Q :=
  fun c =>
    (tstart <- get_sim_time ;;
     wait_heading_loop (S (length (inbox c))) heading accuracy
       maintain_target_time timeout the_function tstart None 0 0) c.



(** The test of [wait_speed_vector]: every axis within the accuracy. *)
Definition speed_vector_test (m : msg) (target_vx target_vy target_vz target_accuracy : Q)
  : bool :=
  Qle_bool (Qabs (msg_vx m - target_vx)) target_accuracy
  && Qle_bool (Qabs (msg_vy m - target_vy)) target_accuracy
  && Qle_bool (Qabs (msg_vz m - target_vz)) target_accuracy.



(** [get_distance(loc1, loc2)]; [1.113195e5] is [1113195 / 10]. *)
Definition get_distance (loc1 loc2 : location) : Q :=
  let dlat := lat loc2 - lat loc1 in
  let dlong := lng loc2 - lng loc1 in
  sqrt ((dlat * dlat) + (dlong * dlong)) * (1113195 # 10).



(** The [while] loop of [wait_location]; [continue] goes back to the loop
    test. *)
Fixpoint wait_location_loop (fuel : nat) (loc : location)
    (accuracy timeout target_altitude height_accuracy : Q) (tstart : Q) : M bool :=
  match fuel with
  | O => block
  | S fuel' =>
      now <- get_sim_time ;;
      if Qlt_bool now (tstart + timeout) then
        pos <- mav_location ;;
        let delta := get_distance loc pos in
        if Qle_bool delta accuracy then
          let height_delta := Qabs (alt pos - target_altitude) in
          if negb (Qeq_bool height_accuracy (-1))
             && Qlt_bool height_accuracy height_delta
          then wait_location_loop fuel' loc accuracy timeout target_altitude
                 height_accuracy tstart
          else ret true
        else wait_location_loop fuel' loc accuracy timeout target_altitude
               height_accuracy tstart
      else raise WaitLocationTimeout
  end.

(** [wait_location(self, loc, accuracy=5.0, timeout=30, target_altitude=None,
    height_accuracy=-1)]. *)
Definition wait_location (loc : location) (accuracy timeout : Q)
    (target_altitude : option Q) (height_accuracy : Q) : M bool :=
  fun c =>
    (tstart <- get_sim_time ;;
     let target_altitude :=
       match target_altitude with
       | None => alt loc
       | Some a => a
       end in
     wait_location_loop (S (length (inbox c))) loc accuracy timeout
       target_altitude height_accuracy tstart) c.



End Waits.

(** ** The common shape of the sustained waits *)

Section Sustained.

Context {acc report : Type}.
Variable ty : mtype.
Variable in_tolerance : msg -> bool.
Variable zero : acc.
Variable accumulate : acc -> msg -> acc.
Variable attained : acc -> Q -> msg -> report.
Variable failure : exn.
Variables maintain_target_time timeout : Q.
Variable the_function : option action.
Variable tstart : Q.

(** The loop that [wait_heading], [wait_yaw_speed] and [wait_speed_vector]
    each spell out. *)
Fixpoint sustained_loop (fuel : nat) (duration_start : option Q) (mean : acc)
    (counter : Q) : M report :=
  match fuel with
  | O => block
  | S fuel' =>
      now <- get_sim_time ;;
      if Qlt_bool now (tstart + timeout) then
        call the_function ;;;
        m <- recv_match ty ;;
        if in_tolerance m then
          let mean := accumulate mean m in
          let counter := counter + 1 in
          duration_start <-
            match duration_start with
            | None => get_sim_time
            | Some d => ret d
            end ;;
          now <- get_sim_time ;;
          if Qlt_bool maintain_target_time (now - duration_start) then
            ret (attained mean counter m)
          else sustained_loop fuel' (Some duration_start) mean counter
        else sustained_loop fuel' None zero 0
      else raise failure
  end.

(** What the loop computes on a stream of samples that each come with the
    simulated time at which they are read: [now] is the time of the previous
    sample. *)
Fixpoint evaluate (now : Q) (duration_start : option Q) (mean : acc)
    (counter : Q) (l : list (Z * msg)) {struct l} : outcome report :=
  match l with
  | [] => if Qlt_bool now (tstart + timeout) then Blocked else Raised failure
  | (t, m) :: l' =>
      if Qlt_bool now (tstart + timeout) then
        if in_tolerance m then
          let d := match duration_start with
                   | None => seconds t
                   | Some d => d
                   end in
          if Qlt_bool maintain_target_time (seconds t - d) then
            Return (attained (accumulate mean m) (counter + 1) m)
          else evaluate (seconds t) (Some d) (accumulate mean m) (counter + 1) l'
        else evaluate (seconds t) None zero 0 l'
      else Raised failure
  end.

End Sustained.

(** ** Vocabulary of the statements *)

(** A telemetry source that publishes its clock: [clock t n] is [n]
    [SYSTEM_TIME] messages of time [t]. *)
Definition clock (t : Z) (n : nat) : list msg := repeat (SYSTEM_TIME t) n.

(** Each sample [(t, m)] of a timed stream arrives as the message [m]
    followed by the clock at [t], often enough for every clock read that
    follows the sample. *)
Fixpoint samples (l : list (Z * msg)) : list msg :=
  match l with
  | [] => []
  | (t, m) :: l' => m :: clock t 3 ++ samples l'
  end.

(** The connection on which a wait starts at time [t0] and then receives the
    timed stream [l]. *)
Definition telemetry (t0 : Z) (l : list (Z * msg)) : list msg :=
  clock t0 2 ++ samples l.

(** The three sustained waits and their targets. *)
Inductive wait_spec :=
| Heading (heading accuracy : Q)
| YawSpeed (target_yaw_speed target_accuracy : Q)
| SpeedVector (target_vx target_vy target_vz target_accuracy : Q).

Definition sample_type (w : wait_spec) : mtype :=
  match w with
  | Heading _ _ => tVFR_HUD
  | YawSpeed _ _ => tATTITUDE
  | SpeedVector _ _ _ _ => tLOCAL_POSITION_NED
  end.


Section Specs.

Variable degrees : Q -> Q.

(** The sample is within the tolerance of the wait. *)
Definition in_tolerance (w : wait_spec) (m : msg) : bool :=
  match w with
  | Heading heading accuracy => heading_test (msg_heading m) heading accuracy
  | YawSpeed target_yaw_speed target_accuracy =>
      Qle_bool (Qabs (degrees (msg_yawspeed m) - target_yaw_speed)) target_accuracy
  | SpeedVector target_vx target_vy target_vz target_accuracy =>
      speed_vector_test m target_vx target_vy target_vz target_accuracy
  end.





End Specs.









(** The clock counts whole milliseconds, and the code compares sums and
    differences of times as floats: [time_boot_ms * 1.0e-3], [tstart +
    timeout], [now - duration_start]. Two times a millisecond or more apart
    compare the same way as floats and as rationals; for times that are
    closer, or equal, the float comparison may turn on the rounding (a run
    from 0.3 s to 0.4 s is longer than 0.1 as floats). Statements that are to
    hold of the code whatever the rounding ask for this margin. *)
Definition millisecond : Q := 1 # 1000.

(** [x] is less than [y] by a millisecond or more. *)
Definition well_below (x y : Q) : Prop := x + millisecond <= y.







(** What one turn of the loop of [wait_distance] or [wait_location] reads:
    the clock, then a position. *)
Definition position_tick (o : Z * location) : list msg :=
  [SYSTEM_TIME (fst o); POSITION (snd o)].








(** A position one thousandth of a degree east of the origin, 111.3195 m
    away under [sqrt_floor] below. *)
Definition origin : location := mkLocation 0 0 0.

Definition east : location := mkLocation 0 (1 # 1000) 0.

(** Stand-ins for [math.degrees] and [math.sqrt] on which the functions can
    be run: pi taken as 355/113, and the square root rounded down to the
    denominator (exact on squares of rationals). *)
Definition degrees_355_113 (x : Q) : Q := x * (180 * 113 # 355).

Definition sqrt_floor (x : Q) : Q :=
  Z.sqrt (Qnum x * Zpos (Qden x)) # Qden x.

End Mav.

(** * The rest of the parameter functions, the utilities and the simple waits *)

Module Console.

Import Params.

(** The line is a [param set]. *)
Definition is_param_set (c : console_cmd) : bool :=
  match c with
  | ParamSet _ _ => true
  | ParamFetch _ => false
  end.

(** A link on which the first [k] fetches time out and the next one is
    answered; the writes are reliable. *)
Definition slow (table : gmap string Q) (k : nat) : MAVProxy :=
  mkMAVProxy table [] (repeat TimedOut k ++ [Answered]) [].

(** An outer scope that writes ["X"], then an inner scope that writes ["X"]
    and ["Y"], on a reliable link. *)
Definition outer_scope : AutoTest :=
  snd (set_parameters [("X", 7%Q)]
         (context_push (session (reliable {[ "X" := 5%Q; "Y" := 1%Q ]}) []))).

Definition inner_scope : AutoTest :=
  snd (set_parameters [("X", 9%Q); ("Y", 3%Q)] (context_push outer_scope)).

(** A session whose first two fetches time out. *)
Definition deaf_at_first : AutoTest :=
  mkAutoTest (mkMAVProxy {[ "X" := 5%Q ]} [] [TimedOut; TimedOut] [])
    [mkContext []].

End Console.

Module Utilities.

Import Mav.
Local Open Scope Q_scope.

Section Math.

(** [math.atan2], taken as given. *)
Variable atan2 : Q -> Q -> Q.

(** [get_bearing(loc1, loc2)]; [57.2957795] is [572957795 / 10000000]. The
    sum [bearing + 360] is exact here; as floats it can round up to
    [360.0] when [bearing] is a tiny negative number, so statements about
    the result allow for 360 itself. *)
Definition get_bearing (loc1 loc2 : location) : Q :=
  let off_x := lng loc2 - lng loc1 in
  let off_y := lat loc2 - lat loc1 in
  let bearing := 90 + atan2 (- off_y) off_x * (572957795 # 10000000) in
  if Qlt_bool bearing 0 then bearing + 360 else bearing.

End Math.

(** A square root that gives equal results on equal rationals: [sqrt_floor]
    of the reduced fraction. *)
Definition sqrt_reduced (x : Q) : Q := sqrt_floor (Qred x).

(** An [atan2] stand-in within the range of the real one: a quarter turn
    to the left or to the right by the sign of its first argument. *)
Definition atan2_quarter (y x : Q) : Q :=
  if Qlt_bool y 0 then - (157 # 100) else if Qlt_bool 0 y then 157 # 100 else 0.

End Utilities.

Module WaitUtilities.

Import Mav.
Local Open Scope Q_scope.

(** The [while tstart + seconds_to_wait > tnow] loop of [wait_seconds]. *)
Fixpoint wait_seconds_loop (fuel : nat) (seconds_to_wait tstart tnow : Q)
  : M unit :=
  match fuel with
  | O => block
  | S fuel' =>
      if Qlt_bool tnow (tstart + seconds_to_wait) then
        tnow <- get_sim_time ;;
        wait_seconds_loop fuel' seconds_to_wait tstart tnow
      else ret tt
  end.

(** [wait_seconds(self, seconds_to_wait)]. *)
Definition wait_seconds (seconds_to_wait : Q) : M unit :=
  fun c =>
    (tstart <- get_sim_time ;;
     wait_seconds_loop (S (length (inbox c))) seconds_to_wait tstart tstart) c.

(** The flight mode after reading the messages [l]. *)
Definition mode_after (l : list msg) (fm : string) : string :=
  fold_left (fun fm m => post_message m fm) l fm.

(** What [command_long_send] can put on the wire: it packs the command as
    an unsigned 16-bit integer and each parameter as a 32-bit float, and
    [struct] raises, with nothing sent, on a command outside 0..65535 or a
    parameter too large for a 32-bit float. [run_cmd] is modelled for the
    commands and parameters that can be packed. *)
Definition float32_max : Q := inject_Z ((2 ^ 24 - 1) * 2 ^ 104).

Definition packs (command : Z) (ps : list Q) : Prop :=
  (0 <= command <= 65535)%Z /\ Forall (fun p => Qabs p <= float32_max) ps.

End WaitUtilities.

Module Telemetry.

Local Open Scope Q_scope.

(** ** The simple waits, the mode wait and the estimator wait

    These read telemetry that the sustained waits do not, and raise
    exceptions of their own, so they get a message type and an exception
    type of their own. The connection is read as before: a receive drops
    the messages of other types, and blocks on an inbox that is used up. *)

Inductive error :=
| WaitModeTimeout
| WaitAltitudeTimout
| WaitGroundSpeedTimeout
| WaitRollTimeout
| WaitPitchTimeout
| ErrorException
| AutoTestTimeoutException
| AttributeError
| TypeError.

Inductive kind :=
| kSYSTEM_TIME
| kGLOBAL_POSITION_INT
| kVFR_HUD
| kATTITUDE
| kHEARTBEAT
| kEKF_STATUS_REPORT.

Inductive message :=
| SYSTEM_TIME (time_boot_ms : Z)
| GLOBAL_POSITION_INT (alt relative_alt : Z)
| VFR_HUD (groundspeed : Q)
| ATTITUDE (roll pitch : Q)
| HEARTBEAT (flightmode : string)
| EKF_STATUS_REPORT (flags : Z).

Definition kind_of (m : message) : kind :=
  match m with
  | SYSTEM_TIME _ => kSYSTEM_TIME
  | GLOBAL_POSITION_INT _ _ => kGLOBAL_POSITION_INT
  | VFR_HUD _ => kVFR_HUD
  | ATTITUDE _ _ => kATTITUDE
  | HEARTBEAT _ => kHEARTBEAT
  | EKF_STATUS_REPORT _ => kEKF_STATUS_REPORT
  end.

Definition kind_eqb (a b : kind) : bool :=
  match a, b with
  | kSYSTEM_TIME, kSYSTEM_TIME | kGLOBAL_POSITION_INT, kGLOBAL_POSITION_INT
  | kVFR_HUD, kVFR_HUD | kATTITUDE, kATTITUDE | kHEARTBEAT, kHEARTBEAT
  | kEKF_STATUS_REPORT, kEKF_STATUS_REPORT => true
  | _, _ => false
  end.

(** Field access [m.field]. *)
Definition m_time_boot_ms (m : message) : Z :=
  match m with SYSTEM_TIME t => t | _ => 0%Z end.
Definition m_alt (m : message) : Z :=
  match m with GLOBAL_POSITION_INT a _ => a | _ => 0%Z end.
Definition m_relative_alt (m : message) : Z :=
  match m with GLOBAL_POSITION_INT _ r => r | _ => 0%Z end.
Definition m_groundspeed (m : message) : Q :=
  match m with VFR_HUD g => g | _ => 0 end.
Definition m_roll (m : message) : Q :=
  match m with ATTITUDE r _ => r | _ => 0 end.
Definition m_pitch (m : message) : Q :=
  match m with ATTITUDE _ p => p | _ => 0 end.
Definition m_flags (m : message) : Z :=
  match m with EKF_STATUS_REPORT f => f | _ => 0%Z end.

(** The session: the MAVProxy console of [Params], the messages still to
    arrive and the flight mode of the last heartbeat read. *)
Record session := mkSession {
  console : Params.MAVProxy;
  inbox : list message;
  flightmode : string
}.

Inductive outcome (A : Type) :=
| Return (a : A)
| Raised (e : error)
| Blocked.
Arguments Return {A} a.
Arguments Raised {A} e.
Arguments Blocked {A}.

Definition T (A : Type) : Type := session -> outcome A * session.

Definition ret {A : Type} (a : A) : T A := fun s => (Return a, s).
Definition raise {A : Type} (e : error) : T A := fun s => (Raised e, s).
Definition block {A : Type} : T A := fun s => (Blocked, s).
Definition bind {A B : Type} (m : T A) (k : A -> T B) : T B :=
  fun s =>
    match m s with
    | (Return a, s') => k a s'
    | (Raised e, s') => (Raised e, s')
    | (Blocked, s') => (Blocked, s')
    end.

Notation "x <- m ;; k" := (bind m (fun x => k))
  (at level 100, m at next level, right associativity).
Notation "m ;;; k" := (bind m (fun _ => k))
  (at level 100, right associativity).

Definition post_message (m : message) (fm : string) : string :=
  match m with HEARTBEAT mode => mode | _ => fm end.

Fixpoint recv_loop (ty : kind) (l : list message) (fm : string)
  : option message * (list message * string) :=
  match l with
  | [] => (None, ([], fm))
  | m :: l' =>
      if kind_eqb (kind_of m) ty then (Some m, (l', post_message m fm))
      else recv_loop ty l' (post_message m fm)
  end.

(** [self.mav.recv_match(type=ty, blocking=True)]. *)
Definition recv_match (ty : kind) : T message :=
  fun s =>
    match recv_loop ty (inbox s) (flightmode s) with
    | (Some m, (l, fm)) => (Return m, mkSession (console s) l fm)
    | (None, (l, fm)) => (Blocked, mkSession (console s) l fm)
    end.

(** [get_sim_time]. *)
Definition get_sim_time : T Q :=
  m <- recv_match kSYSTEM_TIME ;; ret (Mav.seconds (m_time_boot_ms m)).

(** [self.mav.wait_heartbeat()]. *)
Definition wait_heartbeat : T unit :=
  _ <- recv_match kHEARTBEAT ;; ret tt.

Definition get_flightmode : T string :=
  fun s => (Return (flightmode s), s).

(** [self.get_parameter(name)], with its default of one try. *)
Definition get_parameter (name : string) : T (option Q) :=
  fun s =>
    let (v, p) := Params.get_parameter name 1 (console s) in
    (Return v, mkSession p (inbox s) (flightmode s)).

Section Waits.

(** [math.degrees], taken as given. *)
Variable degrees : Q -> Q.

(** The loop of [wait_altitude]; [m is None] cannot happen on a blocking
    receive, [climb_rate] and [previous_alt] only feed a progress line. *)
Fixpoint wait_altitude_loop (fuel : nat) (alt_min alt_max timeout : Q)
    (relative : bool) (tstart : Q) : T bool :=
  match fuel with
  | O => block
  | S fuel' =>
      now <- get_sim_time ;;
      if Mav.Qlt_bool now (tstart + timeout) then
        m <- recv_match kGLOBAL_POSITION_INT ;;
        let alt :=
          if relative then inject_Z (m_relative_alt m) / 1000
          else inject_Z (m_alt m) / 1000 in
        if Qle_bool alt_min alt && Qle_bool alt alt_max then ret true
        else wait_altitude_loop fuel' alt_min alt_max timeout relative tstart
      else raise WaitAltitudeTimout
  end.

(** [wait_altitude(self, alt_min, alt_max, timeout=30, relative=False)]. *)
Definition wait_altitude (alt_min alt_max timeout : Q) (relative : bool) : T bool :=
  fun s =>
    (tstart <- get_sim_time ;;
     wait_altitude_loop (S (length (inbox s))) alt_min alt_max timeout relative
       tstart) s.

(** The loop of [wait_groundspeed]. *)
Fixpoint wait_groundspeed_loop (fuel : nat) (gs_min gs_max timeout : Q)
    (tstart : Q) : T bool :=
  match fuel with
  | O => block
  | S fuel' =>
      now <- get_sim_time ;;
      if Mav.Qlt_bool now (tstart + timeout) then
        m <- recv_match kVFR_HUD ;;
        if Qle_bool gs_min (m_groundspeed m) && Qle_bool (m_groundspeed m) gs_max
        then ret true
        else wait_groundspeed_loop fuel' gs_min gs_max timeout tstart
      else raise WaitGroundSpeedTimeout
  end.

(** [wait_groundspeed(self, gs_min, gs_max, timeout=30)]. *)
Definition wait_groundspeed (gs_min gs_max timeout : Q) : T bool :=
  fun s =>
    (tstart <- get_sim_time ;;
     wait_groundspeed_loop (S (length (inbox s))) gs_min gs_max timeout tstart) s.

(** The loop of [wait_roll]. *)
Fixpoint wait_roll_loop (fuel : nat) (roll accuracy timeout : Q) (tstart : Q)
  : T bool :=
  match fuel with
  | O => block
  | S fuel' =>
      now <- get_sim_time ;;
      if Mav.Qlt_bool now (tstart + timeout) then
        m <- recv_match kATTITUDE ;;
        let r := degrees (m_roll m) in
        if Qle_bool (Qabs (r - roll)) accuracy then ret true
        else wait_roll_loop fuel' roll accuracy timeout tstart
      else raise WaitRollTimeout
  end.

(** [wait_roll(self, roll, accuracy, timeout=30)]. *)
Definition wait_roll (roll accuracy timeout : Q) : T bool :=
  fun s =>
    (tstart <- get_sim_time ;;
     wait_roll_loop (S (length (inbox s))) roll accuracy timeout tstart) s.

(** The loop of [wait_pitch]. *)
Fixpoint wait_pitch_loop (fuel : nat) (pitch accuracy timeout : Q) (tstart : Q)
  : T bool :=
  match fuel with
  | O => block
  | S fuel' =>
      now <- get_sim_time ;;
      if Mav.Qlt_bool now (tstart + timeout) then
        m <- recv_match kATTITUDE ;;
        let p := degrees (m_pitch m) in
        if Qle_bool (Qabs (p - pitch)) accuracy then ret true
        else wait_pitch_loop fuel' pitch accuracy timeout tstart
      else raise WaitPitchTimeout
  end.

(** [wait_pitch(self, pitch, accuracy, timeout=30)]. *)
Definition wait_pitch (pitch accuracy timeout : Q) : T bool :=
  fun s =>
    (tstart <- get_sim_time ;;
     wait_pitch_loop (S (length (inbox s))) pitch accuracy timeout tstart) s.

End Waits.

(** The [while self.mav.flightmode != mode] loop of [wait_mode]; [timeout]
    may be [None]. *)
Fixpoint wait_mode_loop (fuel : nat) (mode : string) (timeout : option Q)
    (tstart : Q) : T unit :=
  match fuel with
  | O => block
  | S fuel' =>
      fm <- get_flightmode ;;
      if negb (String.eqb fm mode) then
        late <-
          match timeout with
          | None => ret false
          | Some timeout =>
              now <- get_sim_time ;; ret (Mav.Qlt_bool (tstart + timeout) now)
          end ;;
        if late then raise WaitModeTimeout
        else wait_heartbeat ;;; wait_mode_loop fuel' mode timeout tstart
      else ret tt
  end.

(** [wait_mode(self, mode, timeout=60)]. [mode_map] is what
    [self.mav.mode_mapping()] returns: the known mode names, or [None];
    on [None] the progress line that prints [mode_map.keys()] raises
    [AttributeError] before [ErrorException] is reached. *)
Definition wait_mode (mode_map : option (list string)) (mode : string)
    (timeout : option Q) : T unit :=
  fun s =>
    match mode_map with
    | None => (Raised AttributeError, s)
    | Some modes =>
        if negb (existsb (String.eqb mode) modes) then (Raised ErrorException, s)
        else
          (tstart <- get_sim_time ;;
           wait_heartbeat ;;;
           wait_mode_loop (S (length (inbox s))) mode timeout tstart) s
    end.

(** Python's [int] on a float: towards zero. *)
Definition int_of_float (q : Q) : Z :=
  Z.quot (Qnum q) (Zpos (Qden q)).

(** The loop of [wait_ekf_happy]. The test that decides on a progress line
    reads the clock once more in every turn. *)
Fixpoint wait_ekf_happy_loop (fuel : nat) (required_value error_bits : Z)
    (timeout : option Q) (tstart : Q) : T bool :=
  match fuel with
  | O => block
  | S fuel' =>
      go_on <-
        match timeout with
        | None => ret true
        | Some timeout =>
            now <- get_sim_time ;; ret (Mav.Qlt_bool now (tstart + timeout))
        end ;;
      if go_on then
        m <- recv_match kEKF_STATUS_REPORT ;;
        let current := m_flags m in
        _ <- get_sim_time ;;
        let errors := Z.land current error_bits in
        if negb (errors =? 0)%Z then
          wait_ekf_happy_loop fuel' required_value error_bits timeout tstart
        else if (Z.land current required_value =? required_value)%Z then ret true
        else wait_ekf_happy_loop fuel' required_value error_bits timeout tstart
      else raise AutoTestTimeoutException
  end.

(** [wait_ekf_happy(self, timeout=30)]. [required_value] and [error_bits]
    are the two masks the function builds from the estimator flags of
    pymavlink; [int(None)] raises when the fetch of [AHRS_EKF_TYPE] timed
    out. *)
Definition wait_ekf_happy (required_value error_bits : Z) (timeout : option Q)
  : T bool :=
  fun s =>
    (v <- get_parameter "AHRS_EKF_TYPE" ;;
     match v with
     | None => raise TypeError
     | Some v =>
         if (int_of_float v =? 10)%Z then ret true
         else
           tstart <- get_sim_time ;;
           wait_ekf_happy_loop (S (length (inbox s))) required_value error_bits
             timeout tstart
     end) s.

(** [wait_ready_to_arm(self, timeout=None)]. *)
Definition wait_ready_to_arm (required_value error_bits : Z) (timeout : option Q)
  : T bool :=
  wait_ekf_happy required_value error_bits timeout.

(** ** Vocabulary for statements about these waits *)

(** The flight mode after the messages [l] went through the connection. *)
Definition mode_after (l : list message) (fm : string) : string :=
  fold_left (fun fm m => post_message m fm) l fm.

(** [s'] is [s] after some of its inbox went through the connection. *)
Definition read_on (s s' : session) : Prop :=
  exists pre, inbox s = pre ++ inbox s'
              /\ flightmode s' = mode_after pre (flightmode s).

(** The shape the four simple waits share: read the clock, give up at the
    deadline, read one sample, return on the first one accepted. *)
Section Threshold.

Variable ty : kind.
Variable accepts : message -> bool.
Variable failure : error.

Fixpoint threshold_loop (fuel : nat) (timeout tstart : Q) : T bool :=
  match fuel with
  | O => block
  | S fuel' =>
      now <- get_sim_time ;;
      if Mav.Qlt_bool now (tstart + timeout) then
        m <- recv_match ty ;;
        if accepts m then ret true else threshold_loop fuel' timeout tstart
      else raise failure
  end.

(** A timed sample of the type that is read in time and fails the test. *)
Definition rejected (timeout tstart : Q) (tm : Z * message) : Prop :=
  Mav.seconds (fst tm) < tstart + timeout
  /\ kind_of (snd tm) = ty /\ accepts (snd tm) = false.

End Threshold.

Inductive simple_wait :=
| Altitude (alt_min alt_max : Q) (relative : bool)
| GroundSpeed (gs_min gs_max : Q)
| Roll (roll accuracy : Q)
| Pitch (pitch accuracy : Q).

Definition sample_kind (w : simple_wait) : kind :=
  match w with
  | Altitude _ _ _ => kGLOBAL_POSITION_INT
  | GroundSpeed _ _ => kVFR_HUD
  | Roll _ _ | Pitch _ _ => kATTITUDE
  end.

Definition failure_of (w : simple_wait) : error :=
  match w with
  | Altitude _ _ _ => WaitAltitudeTimout
  | GroundSpeed _ _ => WaitGroundSpeedTimeout
  | Roll _ _ => WaitRollTimeout
  | Pitch _ _ => WaitPitchTimeout
  end.

Section Simple.

Variable degrees : Q -> Q.

(** The test each wait applies to a sample. *)
Definition accepts (w : simple_wait) (m : message) : bool :=
  match w with
  | Altitude alt_min alt_max relative =>
      let alt :=
        if relative then inject_Z (m_relative_alt m) / 1000
        else inject_Z (m_alt m) / 1000 in
      Qle_bool alt_min alt && Qle_bool alt alt_max
  | GroundSpeed gs_min gs_max =>
      Qle_bool gs_min (m_groundspeed m) && Qle_bool (m_groundspeed m) gs_max
  | Roll roll accuracy => Qle_bool (Qabs (degrees (m_roll m) - roll)) accuracy
  | Pitch pitch accuracy => Qle_bool (Qabs (degrees (m_pitch m) - pitch)) accuracy
  end.

(** The wait itself. *)
Definition simple_wait_run (w : simple_wait) (timeout : Q) : T bool :=
  match w with
  | Altitude alt_min alt_max relative => wait_altitude alt_min alt_max timeout relative
  | GroundSpeed gs_min gs_max => wait_groundspeed gs_min gs_max timeout
  | Roll roll accuracy => wait_roll degrees roll accuracy timeout
  | Pitch pitch accuracy => wait_pitch degrees pitch accuracy timeout
  end.

End Simple.

(** Telemetry in which a clock message precedes every sample. *)
Definition ticks (l : list (Z * message)) : list message :=
  flat_map (fun tm => [SYSTEM_TIME (fst tm); snd tm]) l.

(** Heartbeats, each followed by a clock message. *)
Definition beats (l : list (string * Z)) : list message :=
  flat_map (fun ht => [HEARTBEAT (fst ht); SYSTEM_TIME (snd ht)]) l.



(** A report the estimator wait takes as healthy. *)
Definition healthy (required_value error_bits flags : Z) : Prop :=
  Z.land flags error_bits = 0%Z /\ Z.land flags required_value = required_value.


(** A console that answers from a table in which the estimator type is [v]. *)
Definition bench (v : Q) (l : list message) : session :=
  mkSession (Params.mkMAVProxy {[ "AHRS_EKF_TYPE" := v ]} [] [] []) l "".

End Telemetry.

(** * Facts about the parameter context stack *)

Module ParamsFacts.

Import Params.

(** ** The console model *)

Lemma send_fetch_params name p :
  params (send (ParamFetch name) p) = params p.
Proof. reflexivity. Qed.

Lemma send_set_other name value p m :
  m <> name ->
  params (send (ParamSet name value) p) !! m = params p !! m.
Proof.
  intros Hne. destruct value as [v|]; simpl; [|reflexivity].
  destruct (writes p) as [|[| |q] ws]; simpl; unfold store;
    try reflexivity; apply lookup_alter_ne; congruence.
Qed.

Lemma expect_params name p :
  params (snd (expect name p)) = params p.
Proof. unfold expect. destruct (reads p) as [|[|] rs]; reflexivity. Qed.

Lemma expect_answer name p q :
  fst (expect name p) = Some q -> params p !! name = Some q.
Proof.
  unfold expect. destruct (reads p) as [|[|] rs]; simpl; congruence.
Qed.

Lemma get_parameter_params name retry p :
  params (snd (get_parameter name retry p)) = params p.
Proof.
  revert p. induction retry as [|k IH]; intros p; cbn [get_parameter];
    [reflexivity|].
  pose proof (expect_params name (send (ParamFetch name) p)) as He.
  destruct (expect name (send (ParamFetch name) p)) as [[q|] p'] eqn:E;
    cbn [fst snd] in *; [exact He|].
  rewrite IH. exact He.
Qed.

(** A fetch never invents a value: it reports what the table holds. *)
Lemma get_parameter_answer name retry p q :
  fst (get_parameter name retry p) = Some q -> params p !! name = Some q.
Proof.
  revert p. induction retry as [|k IH]; intros p; cbn [get_parameter];
    [discriminate|].
  pose proof (expect_params name (send (ParamFetch name) p)) as He.
  pose proof (expect_answer name (send (ParamFetch name) p)) as Ha.
  destruct (expect name (send (ParamFetch name) p)) as [[q'|] p'] eqn:E;
    cbn [fst snd] in *.
  - intros [= ->]. apply Ha. reflexivity.
  - intros Hq. apply IH in Hq. rewrite He in Hq. exact Hq.
Qed.

(** One turn of the write loop: the write and its read-back. *)
Lemma write_turn_other name value p m :
  m <> name ->
  params (snd (get_parameter name 1 (send (ParamSet name value) p))) !! m
  = params p !! m.
Proof.
  intros Hne. rewrite get_parameter_params. apply send_set_other, Hne.
Qed.

Lemma write_turn_readback name value p q :
  fst (get_parameter name 1 (send (ParamSet name value) p)) = Some q ->
  params (snd (get_parameter name 1 (send (ParamSet name value) p))) !! name
  = Some q.
Proof.
  intros Hq. rewrite get_parameter_params.
  apply get_parameter_answer in Hq. exact Hq.
Qed.

(** ** [set_parameter] *)

(** What the loop of [set_parameter] guarantees, by outcome. *)
Lemma set_parameter_loop_spec budget name v old_value add s r s' :
  set_parameter_loop budget name (Some v) old_value add s = (r, s') ->
  (forall m, m <> name ->
     params (mavproxy s') !! m = params (mavproxy s) !! m)
  /\ match r with
     | Done _ =>
         (exists q, params (mavproxy s') !! name = Some q /\ (q == v)%Q)
         /\ (if add then context_append (name, old_value) (contexts s)
                         = Some (contexts s')
             else contexts s' = contexts s)
     | Raise _ => contexts s' = contexts s
     end.
Proof.
  revert s. induction budget as [|k IH]; intros s; cbn [set_parameter_loop].
  - intros [= <- <-]. split; [reflexivity|reflexivity].
  - pose proof (write_turn_other name (Some v) (mavproxy s)) as Ho.
    pose proof (write_turn_readback name (Some v) (mavproxy s)) as Hr.
    destruct (get_parameter name 1 (send (ParamSet name (Some v)) (mavproxy s)))
      as [rv p] eqn:E. simpl in Ho, Hr.
    destruct (float_eq rv v) eqn:Heq.
    + destruct rv as [q|]; [|discriminate]. simpl in Heq.
      apply Qeq_bool_iff in Heq.
      destruct add.
      * destruct (context_append (name, old_value) (contexts s)) as [cs|] eqn:Ea;
          intros [= <- <-]; simpl; (split; [exact Ho|]).
        -- split; [exists q; split; [apply Hr; reflexivity|exact Heq]|reflexivity].
        -- reflexivity.
      * intros [= <- <-]; simpl. split; [exact Ho|].
        split; [exists q; split; [apply Hr; reflexivity|exact Heq]|reflexivity].
    + intros Hloop. apply IH in Hloop. simpl in Hloop.
      destruct Hloop as [Hother Hres]. split.
      * intros m Hm. rewrite (Hother m Hm). apply Ho, Hm.
      * exact Hres.
Qed.

(** [float(None)] makes the first turn raise, whatever the read-back. *)
Lemma set_parameter_loop_none budget name old_value add s :
  exists e s', set_parameter_loop budget name None old_value add s = (Raise e, s')
               /\ contexts s' = contexts s
               /\ params (mavproxy s') = params (mavproxy s).
Proof.
  destruct budget as [|k]; cbn [set_parameter_loop].
  - exists ValueError, s. auto.
  - pose proof (get_parameter_params name 1 (send (ParamSet name None) (mavproxy s))) as Hp.
    destruct (get_parameter name 1 (send (ParamSet name None) (mavproxy s)))
      as [rv p] eqn:E.
    exists TypeError, (mkAutoTest p (contexts s)). simpl in *. auto.
Qed.

Lemma old_value_of_table name s q :
  old_value_of name s = Some q -> params (mavproxy s) !! name = Some q.
Proof. apply get_parameter_answer. Qed.

Lemma set_parameter_spec name v add s r s' :
  set_parameter name (Some v) add s = (r, s') ->
  (forall m, m <> name ->
     params (mavproxy s') !! m = params (mavproxy s) !! m)
  /\ match r with
     | Done _ =>
         (exists q, params (mavproxy s') !! name = Some q /\ (q == v)%Q)
         /\ (if add then context_append (name, old_value_of name s) (contexts s)
                         = Some (contexts s')
             else contexts s' = contexts s)
     | Raise _ => contexts s' = contexts s
     end.
Proof.
  unfold set_parameter, old_value_of.
  pose proof (get_parameter_params name 2 (mavproxy s)) as Hp.
  destruct (get_parameter name 2 (mavproxy s)) as [old p] eqn:E. simpl in Hp.
  intros Hloop. apply set_parameter_loop_spec in Hloop. simpl in Hloop.
  rewrite Hp in Hloop. exact Hloop.
Qed.

Lemma set_parameter_none name add s :
  exists e s', set_parameter name None add s = (Raise e, s')
               /\ contexts s' = contexts s
               /\ params (mavproxy s') = params (mavproxy s).
Proof.
  unfold set_parameter.
  pose proof (get_parameter_params name 2 (mavproxy s)) as Hp.
  destruct (get_parameter name 2 (mavproxy s)) as [old p] eqn:E. simpl in Hp.
  destruct (set_parameter_loop_none retry_budget name old add (mkAutoTest p (contexts s)))
    as (e & s' & H1 & H2 & H3).
  exists e, s'. cbn [contexts mavproxy] in H2, H3.
  split; [exact H1|]. split; [exact H2|]. rewrite H3. exact Hp.
Qed.

Lemma context_append_snoc entry cs cs' :
  context_append entry cs = Some cs' ->
  exists init c, cs = init ++ [c]
                 /\ cs' = init ++ [mkContext (parameters c ++ [entry])].
Proof.
  unfold context_append.
  destruct (last cs) as [c|] eqn:El; [|discriminate].
  intros [= <-]. apply last_Some in El as [init ->].
  exists init, c. rewrite removelast_last. auto.
Qed.

Lemma set_parameter_done name value add s u s' :
  set_parameter name value add s = (Done u, s') ->
  exists v, value = Some v
    /\ (forall m, m <> name ->
          params (mavproxy s') !! m = params (mavproxy s) !! m)
    /\ (exists q, params (mavproxy s') !! name = Some q /\ (q == v)%Q)
    /\ (if add then context_append (name, old_value_of name s) (contexts s)
                    = Some (contexts s')
        else contexts s' = contexts s).
Proof.
  destruct value as [v|].
  - intros H. apply set_parameter_spec in H. exists v. tauto.
  - intros H. destruct (set_parameter_none name add s) as (e & s'' & H' & _).
    congruence.
Qed.

(** A successful recording call appends exactly one pair to the current
    context: the name with the value read before the first write. *)
Lemma set_parameter_records name value s u s' :
  set_parameter name value true s = (Done u, s') ->
  exists cs c, contexts s = cs ++ [c]
    /\ contexts s' = cs ++ [mkContext (parameters c ++ [(name, old_value_of name s)])].
Proof.
  intros H. apply set_parameter_done in H as (v & _ & _ & _ & Ha).
  apply context_append_snoc in Ha. exact Ha.
Qed.

(** When every read-back differs from the value written, the loop uses up
    its budget and raises, leaving the contexts alone. *)
Lemma mismatch_raises budget name v old_value add s :
  Forall (fun r => float_eq r v = false)
    (readbacks budget name (Some v) (mavproxy s)) ->
  exists s', set_parameter_loop budget name (Some v) old_value add s
             = (Raise ValueError, s')
             /\ contexts s' = contexts s.
Proof.
  revert s. induction budget as [|k IH]; intros s;
    cbn [set_parameter_loop readbacks].
  - intros _. exists s. auto.
  - destruct (get_parameter name 1 (send (ParamSet name (Some v)) (mavproxy s)))
      as [rv p] eqn:E.
    intros Hall. apply Forall_cons in Hall as [Hrv Hall]. rewrite Hrv.
    destruct (IH (mkAutoTest p (contexts s)) Hall) as (s' & Hloop & Hcs).
    exists s'. auto.
Qed.

(** ** [context_pop] *)

Lemma restore_app ps1 ps2 s :
  restore (ps1 ++ ps2) s
  = match restore ps1 s with
    | (Done _, s1) => restore ps2 s1
    | (Raise e, s1) => (Raise e, s1)
    end.
Proof.
  revert s. induction ps1 as [|[name old] ps1 IH]; intros s;
    cbn [restore app]; [reflexivity|].
  destruct (set_parameter name old false s) as [[u|e] s1]; [apply IH|reflexivity].
Qed.

Lemma context_pop_snoc s cs dead :
  contexts s = cs ++ [dead] ->
  context_pop s = restore (rev (parameters dead)) (mkAutoTest (mavproxy s) cs).
Proof.
  intros Hcs. unfold context_pop. rewrite Hcs, last_snoc, removelast_last.
  reflexivity.
Qed.

(** Restoring pairs of other names leaves a parameter as it is. *)
Lemma restore_other X ps s u s' :
  ~ In X (map fst ps) ->
  restore ps s = (Done u, s') ->
  params (mavproxy s') !! X = params (mavproxy s) !! X.
Proof.
  revert s. induction ps as [|[name old] ps IH]; intros s Hnot;
    cbn [restore].
  - intros [= _ <-]. reflexivity.
  - destruct (set_parameter name old false s) as [[u1|e] s1] eqn:E; [|discriminate].
    intros Hrest. apply set_parameter_done in E as (v & _ & Hother & _).
    rewrite (IH s1); [|intros Hin; apply Hnot; right; exact Hin|exact Hrest].
    apply Hother. intros ->. apply Hnot. left. reflexivity.
Qed.

(** The last pair restored for a name decides its final value. *)
Lemma restore_last X old ps1 ps2 s u s' :
  ~ In X (map fst ps2) ->
  restore (ps1 ++ (X, old) :: ps2) s = (Done u, s') ->
  exists v q, old = Some v /\ params (mavproxy s') !! X = Some q /\ (q == v)%Q.
Proof.
  intros Hnot. rewrite restore_app.
  destruct (restore ps1 s) as [[u1|e] s1]; [|discriminate].
  cbn [restore].
  destruct (set_parameter X old false s1) as [[u2|e] s2] eqn:E; [|discriminate].
  intros Hrest. apply set_parameter_done in E as (v & -> & _ & (q & Hq & Hqv) & _).
  exists v, q. split; [reflexivity|]. split; [|exact Hqv].
  rewrite (restore_other X ps2 s2 u s' Hnot Hrest). exact Hq.
Qed.

(** ** A phase of writes *)

Lemma set_parameters_app ops1 ops2 s :
  set_parameters (ops1 ++ ops2) s
  = match set_parameters ops1 s with
    | (Done _, s1) => set_parameters ops2 s1
    | (Raise e, s1) => (Raise e, s1)
    end.
Proof.
  revert s. induction ops1 as [|[name v] ops1 IH]; intros s;
    cbn [set_parameters app]; [reflexivity|].
  destruct (set_parameter name (Some v) true s) as [[u|e] s1];
    [apply IH|reflexivity].
Qed.

Lemma set_parameters_other X ops s u s' :
  ~ In X (map fst ops) ->
  set_parameters ops s = (Done u, s') ->
  params (mavproxy s') !! X = params (mavproxy s) !! X.
Proof.
  revert s. induction ops as [|[name v] ops IH]; intros s Hnot;
    cbn [set_parameters].
  - intros [= _ <-]. reflexivity.
  - destruct (set_parameter name (Some v) true s) as [[u1|e] s1] eqn:E;
      [|discriminate].
    intros Hrest. apply set_parameter_done in E as (v' & _ & Hother & _).
    rewrite (IH s1); [|intros Hin; apply Hnot; right; exact Hin|exact Hrest].
    apply Hother. intros ->. apply Hnot. left. reflexivity.
Qed.

(** The writes of a phase append one pair each, in order, to the current
    context. *)
Lemma set_parameters_contexts ops s u s' cs c :
  contexts s = cs ++ [c] ->
  set_parameters ops s = (Done u, s') ->
  exists new, contexts s' = cs ++ [mkContext (parameters c ++ new)]
              /\ map fst new = map fst ops.
Proof.
  revert s c. induction ops as [|[name v] ops IH]; intros s c Hcs;
    cbn [set_parameters].
  - intros [= _ <-]. exists []. rewrite app_nil_r. destruct c. auto.
  - destruct (set_parameter name (Some v) true s) as [[u1|e] s1] eqn:E;
      [|discriminate].
    intros Hrest. apply set_parameter_records in E as (cs0 & c0 & Hcs0 & Hcs1).
    rewrite Hcs in Hcs0. apply app_inj_tail in Hcs0 as [<- <-].
    destruct (IH s1 _ Hcs1 Hrest) as (new & Hnew & Hnames).
    exists ((name, old_value_of name s) :: new). cbn [parameters] in Hnew.
    rewrite <- app_assoc in Hnew. split; [exact Hnew|].
    cbn [map fst]. f_equal. exact Hnames.
Qed.

(** The first write to a name splits a phase in two. *)
Lemma first_write_split (X : string) (ops : list (string * Q)) :
  In X (map fst ops) ->
  exists ops1 v ops2, ops = ops1 ++ (X, v) :: ops2 /\ ~ In X (map fst ops1).
Proof.
  induction ops as [|[name v] ops IH]; cbn [map fst In]; [tauto|].
  destruct (String.eqb_spec name X) as [->|Hne].
  - intros _. exists [], v, ops. split; [reflexivity|]. cbn. tauto.
  - intros [Heq|Hin]; [contradiction|].
    destruct (IH Hin) as (ops1 & v' & ops2 & -> & Hnot).
    exists ((name, v) :: ops1), v', ops2. split; [reflexivity|].
    cbn [map fst In]. tauto.
Qed.

(** ** The claims on the context stack *)

(** C1, as stated, fails: with the pairs [("A", 1)] then [("B", 2)] recorded
    and a link that drops every write to come, [context_pop] restores ["B"]
    first, raises [ValueError] from that restore, and never writes ["A"]. *)
Lemma context_pop_best_effort_counterexample :
  let s := session (lossy {[ "A" := 10%Q; "B" := 20%Q ]} 9)
             [("A", Some 1%Q); ("B", Some 2%Q)] in
  fst (context_pop s) = Raise ValueError
  /\ attempted ("B", Some 2%Q) (snd (context_pop s))
  /\ ~ attempted ("A", Some 1%Q) (snd (context_pop s)).
Proof.
  cbv zeta. split; [vm_compute; reflexivity|]. split.
  - unfold attempted. vm_compute. tauto.
  - unfold attempted. vm_compute. intros H.
    repeat (destruct H as [H|H]; [discriminate H|]). exact H.
Qed.

(** C1, amended: [context_pop] restores the recorded pairs newest first and
    stops at the first restore that raises; that error is raised at once,
    from the state that restore left, so that no later pair is attempted. *)
Theorem context_pop_stops_at_first_failure
    s cs dead restored name old_value rest s1 e s2 :
  contexts s = cs ++ [dead] ->
  rev (parameters dead) = restored ++ (name, old_value) :: rest ->
  restore restored (mkAutoTest (mavproxy s) cs) = (Done tt, s1) ->
  set_parameter name old_value false s1 = (Raise e, s2) ->
  context_pop s = (Raise e, s2).
Proof.
  intros Hcs Hrev Hdone Hfail.
  rewrite (context_pop_snoc s cs dead Hcs), Hrev, restore_app, Hdone.
  cbn [restore]. rewrite Hfail. reflexivity.
Qed.

Lemma context_pop_stops_at_first_failure_witness :
  let s := session (lossy {[ "A" := 10%Q; "B" := 20%Q ]} 9)
             [("A", Some 1%Q); ("B", Some 2%Q)] in
  context_pop s
  = (Raise ValueError,
     snd (set_parameter "B" (Some 2%Q) false
            (mkAutoTest (mavproxy s) [mkContext []]))).
Proof.
  cbv zeta.
  apply (context_pop_stops_at_first_failure
           (session (lossy {[ "A" := 10%Q; "B" := 20%Q ]} 9)
              [("A", Some 1%Q); ("B", Some 2%Q)])
           [mkContext []]
           (mkContext [("A", Some 1%Q); ("B", Some 2%Q)])
           [] "B" (Some 2%Q) [("A", Some 1%Q)]
           (mkAutoTest (lossy {[ "A" := 10%Q; "B" := 20%Q ]} 9) [mkContext []])).
  - reflexivity.
  - reflexivity.
  - reflexivity.
  - vm_compute. reflexivity.
Defined.




(** C3: after [context_push()], a phase of successful writes that touches
    [X] at least once, and a [context_pop()] that succeeds, [X] holds the
    value it had before the push. *)
Theorem context_round_trip X v0 ops s s1 s2 :
  params (mavproxy s) !! X = Some v0 ->
  In X (map fst ops) ->
  set_parameters ops (context_push s) = (Done tt, s1) ->
  context_pop s1 = (Done tt, s2) ->
  exists v, params (mavproxy s2) !! X = Some v /\ (v == v0)%Q.
Proof.
  intros Hv0 Hin Hwrites Hpop.
  destruct (first_write_split X ops Hin) as (ops1 & v & ops2 & -> & Hfresh).
  rewrite set_parameters_app in Hwrites.
  destruct (set_parameters ops1 (context_push s)) as [[u1|e] sa] eqn:E1;
    [|discriminate].
  cbn [set_parameters] in Hwrites.
  destruct (set_parameter X (Some v) true sa) as [[u2|e] sb] eqn:E2;
    [|discriminate].
  (* the writes before the first write to X *)
  pose proof (set_parameters_other X ops1 _ _ _ Hfresh E1) as HX.
  cbn [context_push mavproxy] in HX. rewrite Hv0 in HX.
  destruct (set_parameters_contexts ops1 (context_push s) u1 sa
              (contexts s) (mkContext []) eq_refl E1) as (new1 & Hca & Hn1).
  cbn [parameters app] in Hca.
  (* the first write to X records the value before the push, if any *)
  apply set_parameter_records in E2 as (cs0 & c0 & Hcs0 & Hcb).
  rewrite Hca in Hcs0. apply app_inj_tail in Hcs0 as [<- <-].
  cbn [parameters] in Hcb.
  (* the writes after it *)
  destruct (set_parameters_contexts ops2 sb tt s1 _ _ Hcb Hwrites)
    as (new2 & Hc1 & Hn2).
  cbn [parameters] in Hc1.
  (* the restore, newest first: the pair of the first write comes last for X *)
  rewrite (context_pop_snoc s1 _ _ Hc1) in Hpop. cbn [parameters] in Hpop.
  rewrite !rev_app_distr in Hpop. cbn [rev app] in Hpop.
  apply restore_last in Hpop as (v' & q & Hold & Hq & Hqv).
  - apply old_value_of_table in Hold. rewrite HX in Hold.
    injection Hold as <-. exists q. auto.
  - rewrite map_rev, <- in_rev, Hn1. exact Hfresh.
Qed.

Lemma context_round_trip_witness :
  let s := session (reliable {[ "X" := 5%Q; "Y" := 1%Q ]}) [] in
  let ops := [("X", 7%Q); ("Y", 2%Q); ("X", 8%Q)] in
  exists v,
    params (mavproxy (snd (context_pop (snd (set_parameters ops (context_push s))))))
      !! "X" = Some v
    /\ (v == 5)%Q.
Proof.
  cbv zeta.
  apply (context_round_trip "X" 5%Q [("X", 7%Q); ("Y", 2%Q); ("X", 8%Q)]
           (session (reliable {[ "X" := 5%Q; "Y" := 1%Q ]}) [])
           (snd (set_parameters [("X", 7%Q); ("Y", 2%Q); ("X", 8%Q)]
                   (context_push (session (reliable {[ "X" := 5%Q; "Y" := 1%Q ]}) []))))).
  - vm_compute. reflexivity.
  - cbn. tauto.
  - vm_compute. reflexivity.
  - vm_compute. reflexivity.
Defined.

(** C9: if none of the read-backs of the nine turns equals the value
    written, [set_parameter] raises [ValueError]; whenever it raises it leaves
    the contexts as they were; and when it succeeds with recording enabled
    the pair it appends holds the value read before the first write. *)
Theorem set_parameter_write_mismatch name v add s r s' :
  set_parameter name (Some v) add s = (r, s') ->
  (Forall (fun rb => float_eq rb v = false)
     (readbacks retry_budget name (Some v)
        (snd (get_parameter name 2 (mavproxy s)))) ->
   r = Raise ValueError)
  /\ (forall e, r = Raise e -> contexts s' = contexts s)
  /\ (r = Done tt -> add = true ->
      exists cs c,
        contexts s = cs ++ [c]
        /\ contexts s' = cs ++ [mkContext (parameters c ++ [(name, old_value_of name s)])]).
Proof.
  intros Hcall. split; [|split].
  - intros Hall. unfold set_parameter in Hcall.
    destruct (get_parameter name 2 (mavproxy s)) as [old p] eqn:E.
    destruct (mismatch_raises retry_budget name v old add
                (mkAutoTest p (contexts s)) Hall) as (s'' & Hloop & _).
    rewrite Hloop in Hcall. congruence.
  - intros e ->. apply set_parameter_spec in Hcall as [_ Hcs]. exact Hcs.
  - intros -> ->. apply set_parameter_records in Hcall. exact Hcall.
Qed.

Lemma set_parameter_write_mismatch_witness :
  let bad := session (lossy {[ "X" := 5%Q ]} 9) [] in
  let good := session (reliable {[ "X" := 5%Q ]}) [] in
  fst (set_parameter "X" (Some 7%Q) true bad) = Raise ValueError
  /\ contexts (snd (set_parameter "X" (Some 7%Q) true bad)) = contexts bad
  /\ exists cs c,
       contexts good = cs ++ [c]
       /\ contexts (snd (set_parameter "X" (Some 7%Q) true good))
          = cs ++ [mkContext (parameters c ++ [("X", old_value_of "X" good)])].
Proof.
  cbv zeta.
  pose proof (set_parameter_write_mismatch "X" 7%Q true
                (session (lossy {[ "X" := 5%Q ]} 9) [])
                (fst (set_parameter "X" (Some 7%Q) true
                        (session (lossy {[ "X" := 5%Q ]} 9) [])))
                (snd (set_parameter "X" (Some 7%Q) true
                        (session (lossy {[ "X" := 5%Q ]} 9) [])))
                (surjective_pairing _)) as (Hraise & Hkeep & _).
  pose proof (set_parameter_write_mismatch "X" 7%Q true
                (session (reliable {[ "X" := 5%Q ]}) [])
                (fst (set_parameter "X" (Some 7%Q) true
                        (session (reliable {[ "X" := 5%Q ]}) [])))
                (snd (set_parameter "X" (Some 7%Q) true
                        (session (reliable {[ "X" := 5%Q ]}) [])))
                (surjective_pairing _)) as (_ & _ & Hrecord).
  split; [|split].
  - apply Hraise. vm_compute. repeat constructor.
  - apply (Hkeep ValueError). apply Hraise. vm_compute. repeat constructor.
  - apply Hrecord; [vm_compute; reflexivity|reflexivity].
Defined.

End ParamsFacts.

(** * Facts about the waits and the command protocol *)

Module MavFacts.

Import Mav.
Local Open Scope Q_scope.

(** ** Comparisons *)

Lemma Qlt_bool_true x y : Qlt_bool x y = true <-> x < y.
Proof.
  unfold Qlt_bool. rewrite negb_true_iff. split.
  - intros H. apply Qnot_le_lt. intros Hle.
    apply Qle_bool_iff in Hle. congruence.
  - intros H. destruct (Qle_bool y x) eqn:E; [|reflexivity].
    apply Qle_bool_iff in E. apply Qlt_not_le in H. contradiction.
Qed.

Lemma Qlt_bool_false x y : Qlt_bool x y = false <-> y <= x.
Proof.
  unfold Qlt_bool. rewrite negb_false_iff. apply Qle_bool_iff.
Qed.


(** ** Reading from the connection *)

Lemma mtype_eqb_eq a b : mtype_eqb a b = true <-> a = b.
Proof. destruct a, b; simpl; split; congruence. Qed.

Lemma mtype_eqb_refl a : mtype_eqb a a = true.
Proof. apply mtype_eqb_eq. reflexivity. Qed.

Lemma mtype_eqb_neq a b : a <> b -> mtype_eqb a b = false.
Proof.
  intros H. destruct (mtype_eqb a b) eqn:E; [|reflexivity].
  apply mtype_eqb_eq in E. contradiction.
Qed.

(** A message of another type is read and dropped. *)
Lemma recv_match_skip ty m l fm out :
  get_type m <> ty ->
  recv_match ty (mkMavlink (m :: l) fm out)
  = recv_match ty (mkMavlink l (post_message m fm) out).
Proof.
  intros H. unfold recv_match. cbn [inbox flightmode outbox recv_loop].
  rewrite (mtype_eqb_neq _ _ H). reflexivity.
Qed.

Lemma recv_match_here ty m l fm out :
  get_type m = ty ->
  recv_match ty (mkMavlink (m :: l) fm out)
  = (Return m, mkMavlink l (post_message m fm) out).
Proof.
  intros H. unfold recv_match. cbn [inbox flightmode outbox recv_loop].
  rewrite H, mtype_eqb_refl. reflexivity.
Qed.

(** Waiting for a sample goes past the clock messages in front of it. *)
Lemma recv_match_clock ty t n l fm out :
  ty <> tSYSTEM_TIME ->
  recv_match ty (mkMavlink (clock t n ++ l) fm out)
  = recv_match ty (mkMavlink l fm out).
Proof.
  intros H. induction n as [|n IH]; [reflexivity|].
  cbn [clock repeat app]. rewrite recv_match_skip; [exact IH|].
  cbn. congruence.
Qed.

Lemma recv_match_dry ty fm out :
  recv_match ty (mkMavlink [] fm out) = (Blocked, mkMavlink [] fm out).
Proof. reflexivity. Qed.

Lemma get_sim_time_here t l fm out :
  get_sim_time (mkMavlink (SYSTEM_TIME t :: l) fm out)
  = (Return (seconds t), mkMavlink l fm out).
Proof. reflexivity. Qed.

Lemma call_spec the_function l fm out :
  exists out', call the_function (mkMavlink l fm out)
               = (Return tt, mkMavlink l fm out').
Proof. destruct the_function as [f|]; eexists; reflexivity. Qed.

(** ** Sequencing *)

Lemma bind_return {A B : Type} (m : M A) (k : A -> M B) c a c' :
  m c = (Return a, c') -> bind m k c = k a c'.
Proof. intros H. unfold bind. rewrite H. reflexivity. Qed.

Lemma bind_blocked {A B : Type} (m : M A) (k : A -> M B) c c' :
  m c = (Blocked, c') -> bind m k c = (Blocked, c').
Proof. intros H. unfold bind. rewrite H. reflexivity. Qed.

Lemma bind_raised {A B : Type} (m : M A) (k : A -> M B) c e c' :
  m c = (Raised e, c') -> bind m k c = (Raised e, c').
Proof. intros H. unfold bind. rewrite H. reflexivity. Qed.


(** ** The sustained loop on a timed stream *)

Section SustainedFacts.

Context {acc report : Type}.
Variable ty : mtype.
Variable ok : msg -> bool.
Variable zero : acc.
Variable accumulate : acc -> msg -> acc.
Variable attained : acc -> Q -> msg -> report.
Variable failure : exn.
Variables sustain timeout : Q.
Variable the_function : option action.
Variable tstart : Q.

Hypothesis ty_sample : ty <> tSYSTEM_TIME.

(** On the telemetry of a timed stream the loop reads every sample, at the
    time the stream gives it, and computes [evaluate]. *)
Lemma sustained_loop_evaluate l :
  forall fuel t j duration_start mean counter fm out,
    Forall (fun tm => get_type (snd tm) = ty) l ->
    (length l < fuel)%nat ->
    fst (sustained_loop ty ok zero accumulate attained failure sustain timeout
           the_function tstart fuel duration_start mean counter
           (mkMavlink (clock t (S j) ++ samples l) fm out))
    = evaluate ok zero accumulate attained failure sustain timeout tstart
        (seconds t) duration_start mean counter l.
Proof.
  induction l as [|[t' m] l IH];
    intros fuel t j ds mean counter fm out Hty Hfuel;
    (destruct fuel as [|fuel]; [cbn [length] in Hfuel; lia|]);
    cbn [sustained_loop samples evaluate clock repeat app].
  - erewrite bind_return; [|apply get_sim_time_here].
    destruct (Qlt_bool (seconds t) (tstart + timeout)); [|reflexivity].
    destruct (call_spec the_function (repeat (SYSTEM_TIME t) j ++ []) fm out)
      as [out' Hcall].
    erewrite bind_return; [|exact Hcall].
    erewrite bind_blocked; [reflexivity|].
    change (repeat (SYSTEM_TIME t) j) with (clock t j).
    rewrite recv_match_clock by exact ty_sample. apply recv_match_dry.
  - apply Forall_cons in Hty as [Hm Hty]. cbn [snd] in Hm.
    cbn [length] in Hfuel.
    erewrite bind_return; [|apply get_sim_time_here].
    destruct (Qlt_bool (seconds t) (tstart + timeout)); [|reflexivity].
    destruct (call_spec the_function
                (repeat (SYSTEM_TIME t) j
                 ++ m :: SYSTEM_TIME t' :: SYSTEM_TIME t' :: SYSTEM_TIME t' :: samples l)
                fm out) as [out' Hcall].
    erewrite bind_return; [|exact Hcall].
    erewrite bind_return;
      [|change (repeat (SYSTEM_TIME t) j) with (clock t j);
        rewrite recv_match_clock by exact ty_sample;
        apply recv_match_here; exact Hm].
    destruct (ok m).
    + destruct ds as [d|].
      * erewrite bind_return; [|reflexivity].
        erewrite bind_return; [|apply get_sim_time_here].
        destruct (Qlt_bool sustain (seconds t' - d)); [reflexivity|].
        apply (IH fuel t' 1%nat); [exact Hty|lia].
      * erewrite bind_return; [|apply get_sim_time_here].
        erewrite bind_return; [|apply get_sim_time_here].
        destruct (Qlt_bool sustain (seconds t' - seconds t')); [reflexivity|].
        apply (IH fuel t' 0%nat); [exact Hty|lia].
    + apply (IH fuel t' 2%nat); [exact Hty|lia].
Qed.

(** *** Short runs never achieve the wait *)



(** *** A break resets the window *)


(** *** A run longer than the sustain time achieves the wait *)


(** *** Short runs before a break are forgotten *)


(** *** A run that starts afresh *)


End SustainedFacts.

(** ** Timed streams *)






(** ** The three waits are the sustained loop *)

Lemma wait_heading_loop_sustained fuel :
  forall heading accuracy sustain timeout the_function tstart
         duration_start mean counter c,
    wait_heading_loop fuel heading accuracy sustain timeout the_function
      tstart duration_start mean counter c
    = sustained_loop tVFR_HUD
        (fun m => heading_test (msg_heading m) heading accuracy)
        0 (fun a m => a + msg_heading m)
        (fun mean counter m =>
           if Qle_bool accuracy heading then mean / counter else msg_heading m)
        WaitHeadingTimeout sustain timeout the_function tstart
        fuel duration_start mean counter c.
Proof.
  induction fuel as [|fuel IH]; intros; [reflexivity|].
  cbn [wait_heading_loop sustained_loop]. unfold bind.
  destruct (get_sim_time c) as [[now|e|] c1]; try reflexivity.
  destruct (Qlt_bool now (tstart + timeout)); try reflexivity.
  destruct (call the_function c1) as [[[]|e|] c2]; try reflexivity.
  destruct (recv_match tVFR_HUD c2) as [[m|e|] c3]; try reflexivity.
  destruct (heading_test (msg_heading m) heading accuracy); [|apply IH].
  destruct duration_start as [d|].
  - change (ret d c3) with (Return d, c3). cbv beta iota.
    destruct (get_sim_time c3) as [[now'|e|] c4]; try reflexivity.
    destruct (Qlt_bool sustain (now' - d)); [reflexivity|apply IH].
  - destruct (get_sim_time c3) as [[d|e|] c4]; try reflexivity.
    destruct (get_sim_time c4) as [[now'|e|] c5]; try reflexivity.
    destruct (Qlt_bool sustain (now' - d)); [reflexivity|apply IH].
Qed.




(** ** The sustained waits on a timed stream *)

Lemma sample_type_not_clock w : sample_type w <> tSYSTEM_TIME.
Proof. destruct w; discriminate. Qed.




(** ** Margins of a millisecond *)

Lemma well_below_lt x y : well_below x y -> x < y.
Proof. unfold well_below, millisecond. intros H. lra. Qed.

Lemma well_below_le x y : well_below x y -> x <= y.
Proof. unfold well_below, millisecond. intros H. lra. Qed.







(** ** A run that is long enough achieves the wait *)








(** C10: the test of [wait_heading] accepts a sample [h] for the target [t]
    with accuracy [a] exactly when [|h - t| <= a], or [t <= a] and
    [|h - 360| <= a]. A target just below 360 is not matched by a sample
    just past north, while a target just past north is matched by a sample
    just below 360. The loop accepts or drops samples by this test: on two
    equal samples a second apart, it returns when the test holds and waits
    for more when it does not. *)
Theorem wait_heading_wraparound_is_one_sided :
  (forall h t a,
     heading_test h t a = true
     <-> Qabs (h - t) <= a \/ (t <= a /\ Qabs (h - 360) <= a))
  /\ heading_test 1 359 5 = false
  /\ heading_test 359 1 5 = true
  /\ (forall h al t a fm out,
        fst (wait_heading t a 0 30 None
               (mkMavlink (telemetry 0 [(1000%Z, VFR_HUD h al); (2000%Z, VFR_HUD h al)])
                  fm out))
        = if heading_test h t a
          then Return (if Qle_bool a t then (0 + h + h) / (0 + 1 + 1) else h)
          else Blocked).
Proof.
  split; [|split; [reflexivity|split; [reflexivity|]]].
  - intros h t a. unfold heading_test.
    rewrite orb_true_iff, andb_true_iff, !Qle_bool_iff. reflexivity.
  - intros h al t a fm out. unfold wait_heading.
    erewrite bind_return; [|apply get_sim_time_here].
    rewrite wait_heading_loop_sustained.
    rewrite (sustained_loop_evaluate tVFR_HUD _ _ _ _ _ _ _ _ _
               (sample_type_not_clock (Heading t a))
               [(1000%Z, VFR_HUD h al); (2000%Z, VFR_HUD h al)]
               _ 0 0%nat None 0 0 fm out);
      [|repeat constructor|cbn [length inbox telemetry clock repeat app samples]; lia].
    cbn [evaluate msg_heading].
    change (Qlt_bool (seconds 0) (seconds 0 + 30)) with true.
    change (Qlt_bool (seconds 1000) (seconds 0 + 30)) with true.
    change (Qlt_bool (seconds 2000) (seconds 0 + 30)) with true.
    change (Qlt_bool 0 (seconds 1000 - seconds 1000)) with false.
    change (Qlt_bool 0 (seconds 2000 - seconds 1000)) with true.
    cbv beta iota.
    destruct (heading_test h t a); reflexivity.
Qed.

(** ** The command protocol *)

Lemma run_cmd_loop_skip fuel command want_result m l fm out :
  get_type m <> tCOMMAND_ACK ->
  run_cmd_loop (S fuel) command want_result (mkMavlink (m :: l) fm out)
  = run_cmd_loop (S fuel) command want_result
      (mkMavlink l (post_message m fm) out).
Proof.
  intros H. cbn [run_cmd_loop]. unfold bind.
  rewrite (recv_match_skip _ _ _ _ _ H). reflexivity.
Qed.

(** The loop drops everything in front of the first acknowledgment of its
    command, decides on that one and leaves the rest unread. *)
Lemma run_cmd_loop_first_match pre :
  forall fuel command want_result r rest fm out,
    Forall (fun m => get_type m = tCOMMAND_ACK -> msg_command m <> command) pre ->
    (length pre < fuel)%nat ->
    run_cmd_loop fuel command want_result
      (mkMavlink (pre ++ COMMAND_ACK command r :: rest) fm out)
    = (if (r =? want_result)%Z then Return tt else Raised ValueError,
       mkMavlink rest (fold_left (fun fm m => post_message m fm) pre fm) out).
Proof.
  induction pre as [|m pre IH]; intros fuel command want_result r rest fm out
    Hpre Hfuel; (destruct fuel as [|fuel]; [cbn [length] in Hfuel; lia|]).
  - cbn [run_cmd_loop app fold_left].
    erewrite bind_return; [|apply recv_match_here; reflexivity].
    cbn [msg_command msg_result post_message]. rewrite Z.eqb_refl.
    destruct (r =? want_result)%Z; reflexivity.
  - apply Forall_cons in Hpre as [Hm Hpre]. cbn [length] in Hfuel.
    cbn [app fold_left].
    destruct (mtype_eqb (get_type m) tCOMMAND_ACK) eqn:E.
    + apply mtype_eqb_eq in E. cbn [run_cmd_loop].
      erewrite bind_return; [|apply recv_match_here; exact E].
      apply Hm, Z.eqb_neq in E. rewrite E.
      apply IH; [exact Hpre|lia].
    + rewrite run_cmd_loop_skip.
      * apply IH; [exact Hpre|lia].
      * intros Heq. apply mtype_eqb_eq in Heq. congruence.
Qed.

(** C7: [run_cmd] sends the command once; it then drops every message in
    front of the first acknowledgment that carries the command (the
    acknowledgments of other commands among them), returns if that
    acknowledgment has the wanted result and raises [ValueError] if not, and
    in both cases reads nothing after it. *)
Theorem run_cmd_first_matching_ack
    command p1 p2 p3 p4 p5 p6 p7 want_result pre r rest fm out :
  Forall (fun m => get_type m = tCOMMAND_ACK -> msg_command m <> command) pre ->
  run_cmd command p1 p2 p3 p4 p5 p6 p7 want_result
    (mkMavlink (pre ++ COMMAND_ACK command r :: rest) fm out)
  = (if (r =? want_result)%Z then Return tt else Raised ValueError,
     mkMavlink rest (fold_left (fun fm m => post_message m fm) pre fm)
       (out ++ [COMMAND_LONG 1 1 command 1 p1 p2 p3 p4 p5 p6 p7])).
Proof.
  intros Hpre. unfold run_cmd.
  erewrite bind_return; [|reflexivity].
  cbn [inbox flightmode outbox].
  apply run_cmd_loop_first_match; [exact Hpre|].
  rewrite length_app. lia.
Qed.

Lemma run_cmd_first_matching_ack_witness :
  run_cmd 115 90 10 1 0 0 0 0 0
    (mkMavlink [SYSTEM_TIME 0; COMMAND_ACK 11 4; HEARTBEAT "GUIDED";
                COMMAND_ACK 115 4; COMMAND_ACK 115 0] "AUTO" [])
  = (Raised ValueError,
     mkMavlink [COMMAND_ACK 115 0] "GUIDED"
       [COMMAND_LONG 1 1 115 1 90 10 1 0 0 0 0]).
Proof.
  apply (run_cmd_first_matching_ack 115 90 10 1 0 0 0 0 0
           [SYSTEM_TIME 0; COMMAND_ACK 11 4; HEARTBEAT "GUIDED"] 4
           [COMMAND_ACK 115 0] "AUTO" []).
  repeat constructor; cbn; intros; discriminate.
Defined.

(** ** The waypoint wait *)









(** ** The distance and location waits *)

Lemma recv_loop_return ty l fm m l' fm' :
  recv_loop ty l fm = (Some m, (l', fm')) ->
  get_type m = ty /\ exists pre, l = pre ++ m :: l'.
Proof.
  revert fm. induction l as [|x l IH]; intros fm; cbn [recv_loop];
    [discriminate|].
  destruct (mtype_eqb (get_type x) ty) eqn:E.
  - intros [= -> -> _]. apply mtype_eqb_eq in E. split; [exact E|].
    exists []. reflexivity.
  - intros H. apply IH in H as [Hty [pre ->]]. split; [exact Hty|].
    exists (x :: pre). reflexivity.
Qed.

(** A receive returns a message of the type asked for, taken from the
    inbox, or blocks; it never raises. *)
Lemma recv_match_cases ty c :
  (exists m pre c', recv_match ty c = (Return m, c')
                    /\ get_type m = ty /\ inbox c = pre ++ m :: inbox c')
  \/ (exists c', recv_match ty c = (Blocked, c')).
Proof.
  unfold recv_match.
  destruct (recv_loop ty (inbox c) (flightmode c)) as [[m|] [l fm]] eqn:E.
  - left. apply recv_loop_return in E as [Hty [pre Hl]].
    exists m, pre, (mkMavlink l fm (outbox c)). auto.
  - right. eexists. reflexivity.
Qed.

Lemma get_sim_time_cases c :
  (exists t pre c', get_sim_time c = (Return (seconds t), c')
                    /\ inbox c = pre ++ SYSTEM_TIME t :: inbox c')
  \/ (exists c', get_sim_time c = (Blocked, c')).
Proof.
  unfold get_sim_time.
  destruct (recv_match_cases tSYSTEM_TIME c)
    as [(m & pre & c' & Hr & Hty & Hin)|[c' Hr]].
  - left. destruct m; try discriminate.
    eexists _, pre, c'. split; [|exact Hin].
    erewrite bind_return; [|exact Hr]. reflexivity.
  - right. exists c'. erewrite bind_blocked; [reflexivity|exact Hr].
Qed.

Lemma mav_location_cases c :
  (exists p pre c', mav_location c = (Return p, c')
                    /\ inbox c = pre ++ POSITION p :: inbox c')
  \/ (exists c', mav_location c = (Blocked, c')).
Proof.
  unfold mav_location.
  destruct (recv_match_cases tPOSITION c)
    as [(m & pre & c' & Hr & Hty & Hin)|[c' Hr]].
  - left. destruct m; try discriminate.
    eexists _, pre, c'. split; [|exact Hin].
    erewrite bind_return; [|exact Hr]. reflexivity.
  - right. exists c'. erewrite bind_blocked; [reflexivity|exact Hr].
Qed.

Section Distance.

Variable sqrt : Q -> Q.








End Distance.


(** ** The loops run to their end *)

Lemma bind_ext {A B : Type} (m : M A) (k1 k2 : A -> M B) c :
  (forall a c', m c = (Return a, c') -> k1 a c' = k2 a c') ->
  bind m k1 c = bind m k2 c.
Proof.
  intros H. unfold bind. destruct (m c) as [[a|e|] c']; auto.
Qed.

Lemma call_inbox the_function c u c' :
  call the_function c = (Return u, c') -> inbox c' = inbox c.
Proof. destruct the_function as [f|]; intros [= _ <-]; reflexivity. Qed.

Lemma recv_match_shorter ty c m c' :
  recv_match ty c = (Return m, c') ->
  (length (inbox c') < length (inbox c))%nat.
Proof.
  intros H.
  destruct (recv_match_cases ty c) as [(m0 & pre & c0 & Hr & _ & Hin)|[c0 Hr]];
    rewrite Hr in H; [|discriminate].
  injection H as _ <-. rewrite Hin, length_app. cbn [length]. lia.
Qed.

Lemma get_sim_time_shorter c now c' :
  get_sim_time c = (Return now, c') ->
  (length (inbox c') < length (inbox c))%nat.
Proof.
  intros H.
  destruct (get_sim_time_cases c) as [(t & pre & c0 & Hr & Hin)|[c0 Hr]];
    rewrite Hr in H; [|discriminate].
  injection H as _ <-. rewrite Hin, length_app. cbn [length]. lia.
Qed.

Section Fuel.

Context {acc report : Type}.
Variable ty : mtype.
Variable ok : msg -> bool.
Variable zero : acc.
Variable accumulate : acc -> msg -> acc.
Variable attained : acc -> Q -> msg -> report.
Variable failure : exn.
Variables sustain timeout : Q.
Variable the_function : option action.
Variable tstart : Q.

(** Every turn reads at least one message, so a loop given more turns than
    there are messages behaves as the unbounded [while] loop: more turns
    change nothing. *)
Lemma sustained_loop_fuel fuel1 :
  forall fuel2 duration_start mean counter c,
    (length (inbox c) < fuel1)%nat ->
    (length (inbox c) < fuel2)%nat ->
    sustained_loop ty ok zero accumulate attained failure sustain timeout
      the_function tstart fuel1 duration_start mean counter c
    = sustained_loop ty ok zero accumulate attained failure sustain timeout
        the_function tstart fuel2 duration_start mean counter c.
Proof.
  induction fuel1 as [|fuel1 IH]; intros fuel2 ds mean counter c H1 H2; [lia|].
  destruct fuel2 as [|fuel2]; [lia|]. cbn [sustained_loop].
  apply bind_ext. intros now c1 Hc1. apply get_sim_time_shorter in Hc1.
  destruct (Qlt_bool now (tstart + timeout)); [|reflexivity].
  apply bind_ext. intros u c2 Hc2. apply call_inbox in Hc2.
  apply bind_ext. intros m c3 Hc3. apply recv_match_shorter in Hc3.
  rewrite Hc2 in Hc3.
  destruct (ok m); [|apply IH; lia].
  destruct ds as [d|]; apply bind_ext; intros d' c4 Hc4.
  - injection Hc4 as _ <-.
    apply bind_ext. intros now' c5 Hc5. apply get_sim_time_shorter in Hc5.
    destruct (Qlt_bool sustain (now' - d')); [reflexivity|apply IH; lia].
  - apply get_sim_time_shorter in Hc4.
    apply bind_ext. intros now' c5 Hc5. apply get_sim_time_shorter in Hc5.
    destruct (Qlt_bool sustain (now' - d')); [reflexivity|apply IH; lia].
Qed.

End Fuel.

End MavFacts.

(** * More facts about the parameter functions *)

Module ParamsMore.

Import Params Console ParamsFacts.

(** ** What is written to the console *)

Lemma send_sent c p : sent (send c p) = sent p ++ [c].
Proof.
  destruct c as [name [v|]|name]; cbn [send]; try reflexivity.
  destruct (writes p) as [|[| |q] ws]; reflexivity.
Qed.

Lemma expect_sent name p : sent (snd (expect name p)) = sent p.
Proof. unfold expect. destruct (reads p) as [|[|] rs]; reflexivity. Qed.

Lemma get_parameter_sent name retry p :
  exists k, (k <= retry)%nat
    /\ sent (snd (get_parameter name retry p))
       = sent p ++ repeat (ParamFetch name) k.
Proof.
  revert p. induction retry as [|n IH]; intros p; cbn [get_parameter].
  - exists 0%nat. cbn [repeat]. rewrite app_nil_r. auto.
  - pose proof (expect_sent name (send (ParamFetch name) p)) as He.
    rewrite send_sent in He.
    destruct (expect name (send (ParamFetch name) p)) as [[q|] p'] eqn:E;
      cbn [snd] in *.
    + exists 1%nat. split; [lia|exact He].
    + destruct (IH p') as (k & Hk & Hs). exists (S k). split; [lia|].
      rewrite Hs, He, <- app_assoc. reflexivity.
Qed.

Lemma filter_fetches name k :
  List.filter is_param_set (repeat (ParamFetch name) k) = [].
Proof. induction k as [|k IH]; [reflexivity|exact IH]. Qed.

Lemma Forall_fetches name value k :
  Forall (fun c => c = ParamSet name value \/ c = ParamFetch name)
    (repeat (ParamFetch name) k).
Proof.
  induction k as [|k IH]; cbn [repeat]; constructor; auto.
Qed.

(** Every turn of the write loop writes one [param set] line for the
    parameter and the value of the call, and fetches of the parameter. *)
Lemma set_parameter_loop_sent budget name value old_value add :
  forall s r s',
    set_parameter_loop budget name value old_value add s = (r, s') ->
    exists added,
      sent (mavproxy s') = sent (mavproxy s) ++ added
      /\ Forall (fun c => c = ParamSet name value \/ c = ParamFetch name) added
      /\ (length (List.filter is_param_set added) <= budget)%nat
      /\ (budget <> 0%nat -> (1 <= length (List.filter is_param_set added))%nat).
Proof.
  induction budget as [|k IH]; intros s r s'; cbn [set_parameter_loop].
  - intros [= _ <-]. exists []. rewrite app_nil_r.
    repeat split; [constructor|reflexivity|congruence].
  - destruct (get_parameter_sent name 1 (send (ParamSet name value) (mavproxy s)))
      as (n & _ & Hsent).
    rewrite send_sent, <- app_assoc in Hsent.
    destruct (get_parameter name 1 (send (ParamSet name value) (mavproxy s)))
      as [rv p] eqn:E. cbn [snd] in Hsent.
    assert (Hturn : Forall (fun c => c = ParamSet name value \/ c = ParamFetch name)
                      ([ParamSet name value] ++ repeat (ParamFetch name) n)
                    /\ length (List.filter is_param_set
                                 ([ParamSet name value] ++ repeat (ParamFetch name) n))
                       = 1%nat).
    { split.
      - apply Forall_app. split; [repeat constructor; auto|apply Forall_fetches].
      - rewrite List.filter_app, filter_fetches. reflexivity. }
    destruct Hturn as [Hall Hone].
    assert (Hstop : forall cs,
              exists added,
                sent (mavproxy (mkAutoTest p cs)) = sent (mavproxy s) ++ added
                /\ Forall (fun c => c = ParamSet name value \/ c = ParamFetch name) added
                /\ (length (List.filter is_param_set added) <= S k)%nat
                /\ (S k <> 0%nat -> (1 <= length (List.filter is_param_set added))%nat)).
    { intros cs. exists ([ParamSet name value] ++ repeat (ParamFetch name) n).
      cbn [mavproxy]. rewrite Hone. repeat split; [exact Hsent|exact Hall|lia|lia]. }
    destruct value as [v|]; [|intros [= _ <-]; apply Hstop].
    destruct (float_eq rv v).
    + destruct add.
      * destruct (context_append (name, old_value) (contexts s));
          intros [= _ <-]; apply Hstop.
      * intros [= _ <-]; apply Hstop.
    + intros Hloop. apply IH in Hloop as (added & Hs & Hforall & Hle & _).
      cbn [mavproxy] in Hs.
      exists (([ParamSet name (Some v)] ++ repeat (ParamFetch name) n) ++ added).
      repeat split.
      * rewrite Hs, Hsent, <- !app_assoc. reflexivity.
      * apply Forall_app. split; assumption.
      * rewrite List.filter_app, length_app, Hone. lia.
      * intros _. rewrite List.filter_app, length_app, Hone. lia.
Qed.

(** X1: one call of [set_parameter] writes the console between one and nine
    [param set] lines, all of them for the parameter and the value of the
    call; everything else it writes is a fetch of that parameter. *)
Theorem set_parameter_writes_are_bounded name value add s r s' :
  set_parameter name value add s = (r, s') ->
  exists added,
    sent (mavproxy s') = sent (mavproxy s) ++ added
    /\ Forall (fun c => c = ParamSet name value \/ c = ParamFetch name) added
    /\ (1 <= length (List.filter is_param_set added) <= 9)%nat.
Proof.
  unfold set_parameter.
  destruct (get_parameter_sent name 2 (mavproxy s)) as (k & _ & Hold).
  destruct (get_parameter name 2 (mavproxy s)) as [old p] eqn:E.
  cbn [snd] in Hold. intros Hloop.
  apply set_parameter_loop_sent in Hloop as (added & Hs & Hall & Hle & Hge).
  cbn [mavproxy] in Hs.
  exists (repeat (ParamFetch name) k ++ added). repeat split.
  - rewrite Hs, Hold, <- app_assoc. reflexivity.
  - apply Forall_app. split; [apply Forall_fetches|exact Hall].
  - rewrite List.filter_app, filter_fetches. apply Hge. discriminate.
  - rewrite List.filter_app, filter_fetches. exact Hle.
Qed.

Lemma set_parameter_writes_are_bounded_witness :
  exists added,
    sent (mavproxy (snd (set_parameter "X" (Some 7%Q) true
                           (session (lossy {[ "X" := 5%Q ]} 3) []))))
    = sent (mavproxy (session (lossy {[ "X" := 5%Q ]} 3) [])) ++ added
    /\ Forall (fun c => c = ParamSet "X" (Some 7%Q) \/ c = ParamFetch "X") added
    /\ (1 <= length (List.filter is_param_set added) <= 9)%nat.
Proof.
  apply (set_parameter_writes_are_bounded "X" (Some 7%Q) true
           (session (lossy {[ "X" := 5%Q ]} 3) [])
           (fst (set_parameter "X" (Some 7%Q) true
                   (session (lossy {[ "X" := 5%Q ]} 3) [])))).
  apply surjective_pairing.
Defined.

(** X2: a successful [set_parameter] leaves the vehicle with a value equal to
    the one asked for, and with every other parameter as it was. *)
Theorem set_parameter_success_frame name value add s s' :
  set_parameter name value add s = (Done tt, s') ->
  exists v q,
    value = Some v
    /\ params (mavproxy s') !! name = Some q /\ (q == v)%Q
    /\ forall other, other <> name ->
         params (mavproxy s') !! other = params (mavproxy s) !! other.
Proof.
  intros H. apply set_parameter_done in H as (v & -> & Hother & (q & Hq & Hqv) & _).
  exists v, q. auto.
Qed.

Lemma set_parameter_success_frame_witness :
  exists v q,
    Some 7%Q = Some v
    /\ params (mavproxy (snd (set_parameter "X" (Some 7%Q) true
                                (session (lossy {[ "X" := 5%Q; "Y" := 1%Q ]} 3) []))))
         !! "X" = Some q
    /\ (q == v)%Q
    /\ forall other, other <> "X" ->
         params (mavproxy (snd (set_parameter "X" (Some 7%Q) true
                                  (session (lossy {[ "X" := 5%Q; "Y" := 1%Q ]} 3) []))))
           !! other
         = params (mavproxy (session (lossy {[ "X" := 5%Q; "Y" := 1%Q ]} 3) []))
             !! other.
Proof.
  apply (set_parameter_success_frame "X" (Some 7%Q) true
           (session (lossy {[ "X" := 5%Q; "Y" := 1%Q ]} 3) [])).
  vm_compute. reflexivity.
Defined.

(** ** Fetching *)

Lemma get_parameter_all_timed_out name retry :
  forall p rs,
    reads p = repeat TimedOut retry ++ rs ->
    get_parameter name retry p
    = (None, mkMAVProxy (params p) (writes p) rs
               (sent p ++ repeat (ParamFetch name) retry)).
Proof.
  induction retry as [|n IH]; intros p rs Hreads; cbn [get_parameter repeat].
  - cbn [repeat app] in Hreads. rewrite app_nil_r, <- Hreads. destruct p. reflexivity.
  - cbn [repeat app] in Hreads. unfold expect.
    change (send (ParamFetch name) p)
      with (mkMAVProxy (params p) (writes p) (reads p) (sent p ++ [ParamFetch name])).
    cbn [reads params writes sent]. rewrite Hreads.
    rewrite (IH _ rs); [|reflexivity]. cbn [params writes sent].
    rewrite <- app_assoc. reflexivity.
Qed.

(** X3: [get_parameter] gives up after [retry] fetches that all time out and
    returns [None]; when an earlier fetch is answered it returns the value
    the vehicle holds and fetches no more. *)
Theorem get_parameter_retries name retry k p rs q :
  params p !! name = Some q ->
  (reads p = repeat TimedOut retry ++ rs ->
   get_parameter name retry p
   = (None, mkMAVProxy (params p) (writes p) rs
              (sent p ++ repeat (ParamFetch name) retry)))
  /\ ((k < retry)%nat ->
      reads p = repeat TimedOut k ++ Answered :: rs ->
      get_parameter name retry p
      = (Some q, mkMAVProxy (params p) (writes p) rs
                   (sent p ++ repeat (ParamFetch name) (S k)))).
Proof.
  intros Hq. split; [apply get_parameter_all_timed_out|].
  revert retry p Hq. induction k as [|k IH]; intros retry p Hq Hk Hreads;
    (destruct retry as [|n]; [lia|]); cbn [get_parameter repeat app] in *;
    unfold expect;
    change (send (ParamFetch name) p)
      with (mkMAVProxy (params p) (writes p) (reads p) (sent p ++ [ParamFetch name]));
    cbn [reads params writes sent]; rewrite Hreads.
  - rewrite Hq. reflexivity.
  - rewrite (IH n); cbn [params writes sent reads]; [|exact Hq|lia|reflexivity].
    rewrite <- app_assoc. reflexivity.
Qed.

Lemma get_parameter_retries_witness :
  get_parameter "X" 2 (slow {[ "X" := 5%Q ]} 2)
  = (None, mkMAVProxy {[ "X" := 5%Q ]} [] [Answered]
             ([] ++ repeat (ParamFetch "X") 2))
  /\ get_parameter "X" 2 (slow {[ "X" := 5%Q ]} 1)
     = (Some 5%Q, mkMAVProxy {[ "X" := 5%Q ]} [] []
                    ([] ++ repeat (ParamFetch "X") 2)).
Proof.
  split.
  - destruct (get_parameter_retries "X" 2 0 (slow {[ "X" := 5%Q ]} 2) [Answered] 5%Q)
      as [Hnone _]; [vm_compute; reflexivity|].
    apply Hnone. reflexivity.
  - destruct (get_parameter_retries "X" 2 1 (slow {[ "X" := 5%Q ]} 1) [] 5%Q)
      as [_ Hsome]; [vm_compute; reflexivity|].
    apply Hsome; [lia|reflexivity].
Defined.

(** ** Parameters the vehicle does not have *)

Lemma unknown_stays_unknown name value p :
  params p !! name = None ->
  params (snd (get_parameter name 1 (send (ParamSet name value) p))) !! name = None
  /\ fst (get_parameter name 1 (send (ParamSet name value) p)) = None.
Proof.
  intros Hnone.
  assert (Hsend : params (send (ParamSet name value) p) !! name = None).
  { destruct value as [v|]; cbn [send]; [|exact Hnone].
    destruct (writes p) as [|[| |q] ws]; cbn [params]; unfold store;
      rewrite ?lookup_alter_eq, Hnone; reflexivity. }
  split.
  - rewrite get_parameter_params. exact Hsend.
  - destruct (fst (get_parameter name 1 (send (ParamSet name value) p)))
      as [q|] eqn:E; [|reflexivity].
    apply get_parameter_answer in E. congruence.
Qed.

Lemma unknown_readbacks budget name v :
  forall p, params p !! name = None ->
    Forall (fun r => float_eq r v = false) (readbacks budget name (Some v) p).
Proof.
  induction budget as [|k IH]; intros p Hnone; cbn [readbacks]; [constructor|].
  destruct (unknown_stays_unknown name (Some v) p Hnone) as [Hp Hr].
  destruct (get_parameter name 1 (send (ParamSet name (Some v)) p)) as [rv p'].
  cbn [fst snd] in *. subst rv. constructor; [reflexivity|apply IH, Hp].
Qed.

(** X4: setting a parameter that the vehicle does not have raises
    [ValueError], whatever the link does, and records nothing. *)
Theorem set_parameter_unknown_parameter name v add s :
  params (mavproxy s) !! name = None ->
  exists s', set_parameter name (Some v) add s = (Raise ValueError, s')
             /\ contexts s' = contexts s.
Proof.
  intros Hnone. unfold set_parameter.
  pose proof (get_parameter_params name 2 (mavproxy s)) as Hp.
  destruct (get_parameter name 2 (mavproxy s)) as [old p] eqn:E. cbn [snd] in Hp.
  apply (mismatch_raises retry_budget name v old add (mkAutoTest p (contexts s))).
  apply unknown_readbacks. cbn [mavproxy]. rewrite Hp. exact Hnone.
Qed.

Lemma set_parameter_unknown_parameter_witness :
  exists s', set_parameter "Z" (Some 7%Q) true (session (reliable {[ "X" := 5%Q ]}) [])
             = (Raise ValueError, s')
             /\ contexts s' = contexts (session (reliable {[ "X" := 5%Q ]}) []).
Proof.
  apply (set_parameter_unknown_parameter "Z" 7%Q true
           (session (reliable {[ "X" := 5%Q ]}) [])).
  vm_compute. reflexivity.
Defined.

(** ** The stack discipline *)

Lemma set_parameter_without_recording name value s r s' :
  set_parameter name value false s = (r, s') -> contexts s' = contexts s.
Proof.
  destruct value as [v|].
  - intros H. apply set_parameter_spec in H as [_ H]. destruct r; tauto.
  - intros H. destruct (set_parameter_none name false s) as (e & s'' & H' & Hc & _).
    congruence.
Qed.

Lemma restore_contexts ps :
  forall s, contexts (snd (restore ps s)) = contexts s.
Proof.
  induction ps as [|[name old] ps IH]; intros s; cbn [restore]; [reflexivity|].
  destruct (set_parameter name old false s) as [[u|e] s1] eqn:E;
    apply set_parameter_without_recording in E.
  - rewrite IH. exact E.
  - exact E.
Qed.

Lemma context_pop_contexts s cs dead :
  contexts s = cs ++ [dead] ->
  contexts (snd (context_pop s)) = cs.
Proof.
  intros Hcs. rewrite (context_pop_snoc s cs dead Hcs), restore_contexts.
  reflexivity.
Qed.

(** X5: [context_pop] takes the current context off the stack whether the
    restore succeeds or raises: after a pop that raised, the pairs it did not
    restore are gone with their context. *)
Theorem context_pop_always_drops_the_context s cs dead :
  contexts s = cs ++ [dead] ->
  contexts (snd (context_pop s)) = cs.
Proof. apply context_pop_contexts. Qed.

Lemma context_pop_always_drops_the_context_witness :
  fst (context_pop (session (lossy {[ "A" := 10%Q; "B" := 20%Q ]} 9)
                      [("A", Some 1%Q); ("B", Some 2%Q)]))
  = Raise ValueError
  /\ contexts (snd (context_pop (session (lossy {[ "A" := 10%Q; "B" := 20%Q ]} 9)
                                   [("A", Some 1%Q); ("B", Some 2%Q)])))
     = [mkContext []].
Proof.
  split; [vm_compute; reflexivity|].
  apply (context_pop_always_drops_the_context
           (session (lossy {[ "A" := 10%Q; "B" := 20%Q ]} 9)
              [("A", Some 1%Q); ("B", Some 2%Q)])
           [mkContext []] (mkContext [("A", Some 1%Q); ("B", Some 2%Q)])).
  reflexivity.
Defined.

(** X6: [context_push()] followed at once by [context_pop()] changes
    nothing: nothing is written to the console and the stack is as before. *)
Theorem context_push_pop_is_a_no_op s :
  context_pop (context_push s) = (Done tt, s).
Proof.
  rewrite (context_pop_snoc (context_push s) (contexts s) (mkContext []) eq_refl).
  destruct s. reflexivity.
Qed.

(** A phase of writes, whether it ends well or raises, only appends to the
    current context. *)
Lemma set_parameters_appends ops :
  forall s r s' cs c,
    contexts s = cs ++ [c] ->
    set_parameters ops s = (r, s') ->
    exists new, contexts s' = cs ++ [mkContext (parameters c ++ new)].
Proof.
  induction ops as [|[name v] ops IH]; intros s r s' cs c Hcs;
    cbn [set_parameters].
  - intros [= _ <-]. exists []. rewrite app_nil_r. destruct c. exact Hcs.
  - destruct (set_parameter name (Some v) true s) as [[u|e] s1] eqn:E.
    + intros Hrest. apply set_parameter_records in E as (cs0 & c0 & Hcs0 & Hcs1).
      rewrite Hcs in Hcs0. apply app_inj_tail in Hcs0 as [<- <-].
      destruct (IH s1 r s' _ _ Hcs1 Hrest) as (new & Hnew).
      exists ((name, old_value_of name s) :: new). cbn [parameters] in Hnew.
      rewrite <- app_assoc in Hnew. exact Hnew.
    + intros [= _ <-]. apply set_parameter_spec in E as [_ E].
      exists []. rewrite app_nil_r, E. destruct c. exact Hcs.
Qed.

(** The first write of a phase to [X] records the value [X] had when the
    phase began, or [None] when the fetch timed out. *)
Lemma phase_records X v0 ops s u s1 cs c :
  params (mavproxy s) !! X = Some v0 ->
  In X (map fst ops) ->
  contexts s = cs ++ [c] ->
  set_parameters ops s = (Done u, s1) ->
  exists new1 old new2,
    contexts s1 = cs ++ [mkContext (parameters c ++ new1 ++ (X, old) :: new2)]
    /\ ~ In X (map fst new1)
    /\ (forall v, old = Some v -> v = v0).
Proof.
  intros Hv0 Hin Hcs Hwrites.
  destruct (first_write_split X ops Hin) as (ops1 & v & ops2 & -> & Hfresh).
  rewrite set_parameters_app in Hwrites.
  destruct (set_parameters ops1 s) as [[u1|e] sa] eqn:E1; [|discriminate].
  cbn [set_parameters] in Hwrites.
  destruct (set_parameter X (Some v) true sa) as [[u2|e] sb] eqn:E2;
    [|discriminate].
  pose proof (set_parameters_other X ops1 _ _ _ Hfresh E1) as HX.
  rewrite Hv0 in HX.
  destruct (set_parameters_contexts ops1 s u1 sa cs c Hcs E1) as (new1 & Hca & Hn1).
  apply set_parameter_records in E2 as (cs0 & c0 & Hcs0 & Hcb).
  rewrite Hca in Hcs0. apply app_inj_tail in Hcs0 as [<- <-].
  cbn [parameters] in Hcb.
  destruct (set_parameters_contexts ops2 sb u s1 _ _ Hcb Hwrites)
    as (new2 & Hc1 & Hn2).
  cbn [parameters] in Hc1.
  exists new1, (old_value_of X sa), new2. split; [|split].
  - rewrite Hc1, <- !app_assoc. reflexivity.
  - rewrite Hn1. exact Hfresh.
  - intros v' Hold. apply old_value_of_table in Hold. congruence.
Qed.

(** X7: nested contexts are restored innermost first. Whatever an inner
    scope does between its push and its pop, including writes that raise and
    a pop that raises, a successful pop of the outer scope leaves every
    parameter the outer scope wrote at the value it had before the outer
    push, and the stack as it was before that push. *)
Theorem nested_contexts_restore_outer_value
    X v0 outer inner s s1 r2 s2 r3 s3 s4 :
  params (mavproxy s) !! X = Some v0 ->
  In X (map fst outer) ->
  set_parameters outer (context_push s) = (Done tt, s1) ->
  set_parameters inner (context_push s1) = (r2, s2) ->
  context_pop s2 = (r3, s3) ->
  context_pop s3 = (Done tt, s4) ->
  (exists v, params (mavproxy s4) !! X = Some v /\ (v == v0)%Q)
  /\ contexts s4 = contexts s.
Proof.
  intros Hv0 Hin Houter Hinner Hpop_inner Hpop_outer.
  destruct (phase_records X v0 outer (context_push s) tt s1 (contexts s)
              (mkContext []) Hv0 Hin eq_refl Houter)
    as (new1 & old & new2 & Hc1 & Hfresh & Hold).
  cbn [parameters app] in Hc1.
  destruct (set_parameters_appends inner (context_push s1) r2 s2
              (contexts s1) (mkContext []) eq_refl Hinner) as (new & Hc2).
  pose proof (context_pop_contexts s2 _ _ Hc2) as Hc3.
  rewrite Hpop_inner in Hc3. cbn [snd] in Hc3.
  pose proof (context_pop_contexts s3 (contexts s) _
                (eq_trans Hc3 Hc1)) as Hc4.
  rewrite Hpop_outer in Hc4. cbn [snd] in Hc4. split; [|exact Hc4].
  rewrite (context_pop_snoc s3 _ _ (eq_trans Hc3 Hc1)) in Hpop_outer.
  cbn [parameters] in Hpop_outer.
  rewrite rev_app_distr in Hpop_outer. cbn [rev] in Hpop_outer.
  rewrite <- !app_assoc in Hpop_outer. cbn [app] in Hpop_outer.
  apply restore_last in Hpop_outer as (v & q & Hv & Hq & Hqv).
  - exists q. split; [exact Hq|]. rewrite <- (Hold v Hv). exact Hqv.
  - rewrite map_rev, <- in_rev. exact Hfresh.
Qed.

Lemma nested_contexts_restore_outer_value_witness :
  (exists v,
     params (mavproxy (snd (context_pop (snd (context_pop inner_scope))))) !! "X"
     = Some v /\ (v == 5)%Q)
  /\ contexts (snd (context_pop (snd (context_pop inner_scope))))
     = contexts (session (reliable {[ "X" := 5%Q; "Y" := 1%Q ]}) []).
Proof.
  apply (nested_contexts_restore_outer_value "X" 5%Q
           [("X", 7%Q)] [("X", 9%Q); ("Y", 3%Q)]
           (session (reliable {[ "X" := 5%Q; "Y" := 1%Q ]}) [])
           outer_scope
           (fst (set_parameters [("X", 9%Q); ("Y", 3%Q)] (context_push outer_scope)))
           inner_scope
           (fst (context_pop inner_scope))
           (snd (context_pop inner_scope))).
  - vm_compute. reflexivity.
  - cbn. tauto.
  - vm_compute. reflexivity.
  - apply surjective_pairing.
  - apply surjective_pairing.
  - vm_compute. reflexivity.
Defined.

(** ** A fetch that times out when the old value is read *)

Lemma old_value_timed_out name s rs :
  reads (mavproxy s) = TimedOut :: TimedOut :: rs ->
  old_value_of name s = None.
Proof.
  intros Hreads. unfold old_value_of.
  rewrite (get_parameter_all_timed_out name 2 (mavproxy s) rs Hreads).
  reflexivity.
Qed.

(** X8: when both fetches of the old value time out, a [set_parameter] that
    then succeeds records [None] for it; the next [context_pop] raises
    [TypeError] on that pair before restoring anything, so the parameter
    keeps the value written and the context is dropped. *)
Theorem context_pop_after_timed_out_fetch name v s rs s1 :
  reads (mavproxy s) = TimedOut :: TimedOut :: rs ->
  set_parameter name (Some v) true s = (Done tt, s1) ->
  exists s2,
    context_pop s1 = (Raise TypeError, s2)
    /\ params (mavproxy s2) = params (mavproxy s1)
    /\ (exists q, params (mavproxy s2) !! name = Some q /\ (q == v)%Q)
    /\ (exists cs c, contexts s = cs ++ [c] /\ contexts s2 = cs).
Proof.
  intros Hreads Hset.
  pose proof (set_parameter_done _ _ _ _ _ _ Hset)
    as (v' & [= <-] & _ & (q & Hq & Hqv) & _).
  apply set_parameter_records in Hset as (cs & c & Hcs & Hcs1).
  rewrite (old_value_timed_out name s rs Hreads) in Hcs1.
  rewrite (context_pop_snoc s1 _ _ Hcs1). cbn [parameters].
  rewrite rev_app_distr. cbn [rev app restore].
  destruct (set_parameter_none name false (mkAutoTest (mavproxy s1) cs))
    as (e & s2 & Hnone & Hc2 & Hp2).
  assert (He : e = TypeError).
  { unfold set_parameter in Hnone.
    destruct (get_parameter name 2 (mavproxy (mkAutoTest (mavproxy s1) cs)))
      as [old p]. unfold retry_budget in Hnone. cbn [set_parameter_loop] in Hnone.
    destruct (get_parameter name 1 _) as [rv p'] in Hnone. congruence. }
  subst e. rewrite Hnone. exists s2. cbn [mavproxy contexts] in Hc2, Hp2.
  split; [reflexivity|]. split; [exact Hp2|]. split.
  - exists q. rewrite Hp2. auto.
  - exists cs, c. auto.
Qed.

Lemma context_pop_after_timed_out_fetch_witness :
  exists s2,
    context_pop (snd (set_parameter "X" (Some 7%Q) true deaf_at_first))
    = (Raise TypeError, s2)
    /\ params (mavproxy s2)
       = params (mavproxy (snd (set_parameter "X" (Some 7%Q) true deaf_at_first)))
    /\ (exists q, params (mavproxy s2) !! "X" = Some q /\ (q == 7)%Q)
    /\ (exists cs c, contexts deaf_at_first = cs ++ [c] /\ contexts s2 = cs).
Proof.
  apply (context_pop_after_timed_out_fetch "X" 7%Q deaf_at_first []).
  - reflexivity.
  - vm_compute. reflexivity.
Defined.

End ParamsMore.

(** * Facts about the utilities *)

Module UtilitiesFacts.

Import Mav Utilities MavFacts.
Local Open Scope Q_scope.

Lemma sqrt_reduced_proper x y : x == y -> sqrt_reduced x == sqrt_reduced y.
Proof.
  intros H. unfold sqrt_reduced. rewrite (Qred_complete x y H). reflexivity.
Qed.

Section Math.

Variable sqrt : Q -> Q.
Variable atan2 : Q -> Q -> Q.

(** X9: the distance between two locations does not depend on their order,
    for a square root that gives equal results on equal rationals. *)
Theorem get_distance_is_symmetric loc1 loc2 :
  (forall x y, x == y -> sqrt x == sqrt y) ->
  get_distance sqrt loc1 loc2 == get_distance sqrt loc2 loc1.
Proof.
  intros Hsqrt. unfold get_distance. cbv zeta.
  rewrite (Hsqrt _ ((lat loc1 - lat loc2) * (lat loc1 - lat loc2)
                    + (lng loc1 - lng loc2) * (lng loc1 - lng loc2)));
    [reflexivity|ring].
Qed.

(** X11: a bearing lies between 0 and 360, both included, for an [atan2]
    whose results lie between -355/113 and 355/113 (as those of the real
    one do). 360 is included because the float sum of the code can round
    up to it. *)
Theorem get_bearing_range loc1 loc2 :
  (forall y x, - (355 # 113) <= atan2 y x <= 355 # 113) ->
  0 <= get_bearing atan2 loc1 loc2 <= 360.
Proof.
  intros Hrange. unfold get_bearing. cbv zeta.
  pose proof (Hrange (- (lat loc2 - lat loc1)) (lng loc2 - lng loc1)) as [Hlo Hhi].
  destruct (Qlt_bool _ 0) eqn:E.
  - apply Qlt_bool_true in E. split; lra.
  - apply Qlt_bool_false in E. split; lra.
Qed.

End Math.

Lemma get_distance_is_symmetric_witness :
  get_distance sqrt_reduced origin east == get_distance sqrt_reduced east origin.
Proof.
  apply (get_distance_is_symmetric sqrt_reduced origin east).
  exact sqrt_reduced_proper.
Defined.

Lemma get_bearing_range_witness :
  0 <= get_bearing atan2_quarter origin east <= 360.
Proof.
  apply (get_bearing_range atan2_quarter origin east).
  intros y x. unfold atan2_quarter.
  destruct (Qlt_bool y 0); [split; discriminate|].
  destruct (Qlt_bool 0 y); split; discriminate.
Defined.

End UtilitiesFacts.

(** * More facts about the waits and the command protocol *)

Module MavMore.

Import Mav WaitUtilities MavFacts.
Local Open Scope Q_scope.

(** ** Receiving *)

Lemma recv_loop_spec ty l :
  forall fm,
    match recv_loop ty l fm with
    | (Some m, (l', fm')) =>
        get_type m = ty
        /\ exists pre, l = pre ++ m :: l'
                       /\ Forall (fun x => get_type x <> ty) pre
                       /\ fm' = mode_after (pre ++ [m]) fm
    | (None, (l', fm')) =>
        l' = [] /\ Forall (fun x => get_type x <> ty) l /\ fm' = mode_after l fm
    end.
Proof.
  induction l as [|x l IH]; intros fm; cbn [recv_loop].
  - repeat split. constructor.
  - destruct (mtype_eqb (get_type x) ty) eqn:E.
    + apply mtype_eqb_eq in E. split; [exact E|].
      exists []. repeat split. constructor.
    + assert (Hx : get_type x <> ty).
      { intros H. apply mtype_eqb_eq in H. congruence. }
      specialize (IH (post_message x fm)).
      destruct (recv_loop ty l (post_message x fm)) as [[m|] [l' fm']].
      * destruct IH as [Hty (pre & -> & Hpre & ->)]. split; [exact Hty|].
        exists (x :: pre). repeat split. constructor; assumption.
      * destruct IH as (-> & Hall & ->). repeat split.
        constructor; assumption.
Qed.

(** A receive returns the first message of the type asked for, having
    dropped the messages in front of it, or blocks with the inbox used up. *)
Lemma recv_match_spec ty c :
  (exists m pre c',
     recv_match ty c = (Return m, c')
     /\ get_type m = ty
     /\ inbox c = pre ++ m :: inbox c'
     /\ Forall (fun x => get_type x <> ty) pre
     /\ flightmode c' = mode_after (pre ++ [m]) (flightmode c)
     /\ outbox c' = outbox c)
  \/ (exists c',
        recv_match ty c = (Blocked, c')
        /\ inbox c' = []
        /\ Forall (fun x => get_type x <> ty) (inbox c)
        /\ flightmode c' = mode_after (inbox c) (flightmode c)
        /\ outbox c' = outbox c).
Proof.
  unfold recv_match. pose proof (recv_loop_spec ty (inbox c) (flightmode c)) as H.
  destruct (recv_loop ty (inbox c) (flightmode c)) as [[m|] [l fm]].
  - left. destruct H as [Hty (pre & Hl & Hpre & Hfm)].
    exists m, pre, (mkMavlink l fm (outbox c)). cbn [inbox flightmode outbox].
    repeat split; assumption.
  - right. destruct H as (Hl & Hall & Hfm).
    exists (mkMavlink l fm (outbox c)). cbn [inbox flightmode outbox].
    repeat split; assumption.
Qed.

(** ** [run_cmd] *)

Lemma run_cmd_loop_outcome fuel :
  forall command want_result c o c',
    (length (inbox c) < fuel)%nat ->
    run_cmd_loop fuel command want_result c = (o, c') ->
    outbox c' = outbox c
    /\ match o with
       | Return _ => In (COMMAND_ACK command want_result) (inbox c)
       | Raised e =>
           e = ValueError
           /\ exists r, r <> want_result /\ In (COMMAND_ACK command r) (inbox c)
       | Blocked =>
           inbox c' = []
           /\ Forall (fun m => get_type m = tCOMMAND_ACK -> msg_command m <> command)
                (inbox c)
       end.
Proof.
  induction fuel as [|fuel IH]; intros command want_result c o c' Hfuel; [lia|].
  cbn [run_cmd_loop].
  destruct (recv_match_spec tCOMMAND_ACK c)
    as [(m & pre & c1 & Hr & Hty & Hin & Hpre & _ & Hout)
       |(c1 & Hr & Hin & Hall & _ & Hout)].
  - erewrite bind_return by exact Hr.
    destruct m as [| | | | | | | |cmd r]; try discriminate.
    cbn [msg_command msg_result].
    assert (Hhere : In (COMMAND_ACK cmd r) (inbox c)).
    { rewrite Hin. apply in_or_app. right. left. reflexivity. }
    destruct (Z.eqb_spec cmd command) as [->|Hne].
    + destruct (Z.eqb_spec r want_result) as [->|Hr'].
      * intros [= <- <-]. auto.
      * intros [= <- <-]. split; [exact Hout|]. split; [reflexivity|].
        exists r. auto.
    + intros Hloop. apply IH in Hloop as [Hout' Hres].
      * split; [congruence|].
        assert (Hsub : forall x, In x (inbox c1) -> In x (inbox c)).
        { intros x Hx. rewrite Hin. apply in_or_app. right. right. exact Hx. }
        destruct o as [u|e|].
        -- apply Hsub, Hres.
        -- destruct Hres as [He (r' & Hr' & Hin')]. split; [exact He|].
           exists r'. auto.
        -- destruct Hres as [Hnil Hno]. split; [exact Hnil|].
           rewrite Hin. apply Forall_app. split.
           ++ eapply Forall_impl; [exact Hpre|]. intros x Hx Hx'. contradiction.
           ++ constructor; [intros _; exact Hne|exact Hno].
      * rewrite Hin, length_app in Hfuel. cbn [length] in Hfuel. lia.
  - erewrite bind_blocked by exact Hr. intros [= <- <-].
    split; [exact Hout|]. split; [exact Hin|].
    eapply Forall_impl; [exact Hall|]. intros x Hx Hx'. contradiction.
Qed.

(** X12: for a command and parameters that [command_long_send] can pack
    (a command in 0..65535, parameters within the 32-bit floats), [run_cmd]
    sends its command exactly once, whatever happens next. It returns only
    on an acknowledgment of the command with the wanted result, raises
    only [ValueError] and only on an acknowledgment of the command with
    another result, and otherwise never comes back: it has no timeout, and
    reads everything that arrives while it waits. *)
Theorem run_cmd_outcomes command p1 p2 p3 p4 p5 p6 p7 want_result c o c' :
  packs command [p1; p2; p3; p4; p5; p6; p7] ->
  run_cmd command p1 p2 p3 p4 p5 p6 p7 want_result c = (o, c') ->
  outbox c' = outbox c ++ [COMMAND_LONG 1 1 command 1 p1 p2 p3 p4 p5 p6 p7]
  /\ match o with
     | Return _ => In (COMMAND_ACK command want_result) (inbox c)
     | Raised e =>
         e = ValueError
         /\ exists r, r <> want_result /\ In (COMMAND_ACK command r) (inbox c)
     | Blocked =>
         inbox c' = []
         /\ Forall (fun m => get_type m = tCOMMAND_ACK -> msg_command m <> command)
              (inbox c)
     end.
Proof.
  intros _. unfold run_cmd. erewrite bind_return; [|reflexivity].
  intros H. apply run_cmd_loop_outcome in H; [exact H|].
  cbn [inbox]. lia.
Qed.

Lemma run_cmd_outcomes_witness :
  outbox (snd (run_cmd 115 90 10 1 0 0 0 0 0
                 (mkMavlink [COMMAND_ACK 11 0; HEARTBEAT "GUIDED"] "AUTO" [])))
  = [] ++ [COMMAND_LONG 1 1 115 1 90 10 1 0 0 0 0]
  /\ inbox (snd (run_cmd 115 90 10 1 0 0 0 0 0
                   (mkMavlink [COMMAND_ACK 11 0; HEARTBEAT "GUIDED"] "AUTO" [])))
     = []
  /\ Forall (fun m => get_type m = tCOMMAND_ACK -> msg_command m <> 115%Z)
       [COMMAND_ACK 11 0; HEARTBEAT "GUIDED"].
Proof.
  apply (run_cmd_outcomes 115 90 10 1 0 0 0 0 0
           (mkMavlink [COMMAND_ACK 11 0; HEARTBEAT "GUIDED"] "AUTO" [])
           Blocked
           (snd (run_cmd 115 90 10 1 0 0 0 0 0
                   (mkMavlink [COMMAND_ACK 11 0; HEARTBEAT "GUIDED"] "AUTO" [])))).
  - split; [lia|]. repeat constructor; vm_compute; discriminate.
  - vm_compute. reflexivity.
Defined.

(** ** [wait_seconds] *)

Lemma wait_seconds_loop_skip fuel seconds_to_wait tstart tnow m l fm out :
  get_type m <> tSYSTEM_TIME ->
  tnow < tstart + seconds_to_wait ->
  wait_seconds_loop (S fuel) seconds_to_wait tstart tnow (mkMavlink (m :: l) fm out)
  = wait_seconds_loop (S fuel) seconds_to_wait tstart tnow
      (mkMavlink l (post_message m fm) out).
Proof.
  intros H Hnow. cbn [wait_seconds_loop].
  apply Qlt_bool_true in Hnow. rewrite Hnow.
  unfold get_sim_time, bind. rewrite (recv_match_skip _ _ _ _ _ H). reflexivity.
Qed.

Lemma wait_seconds_loop_returns pre :
  forall fuel seconds_to_wait tstart tnow t rest fm out,
    tnow < tstart + seconds_to_wait ->
    Forall (fun m => get_type m = tSYSTEM_TIME ->
                     seconds (msg_time_boot_ms m) < tstart + seconds_to_wait) pre ->
    tstart + seconds_to_wait <= seconds t ->
    (S (length pre) < fuel)%nat ->
    wait_seconds_loop fuel seconds_to_wait tstart tnow
      (mkMavlink (pre ++ SYSTEM_TIME t :: rest) fm out)
    = (Return tt, mkMavlink rest (mode_after pre fm) out).
Proof.
  induction pre as [|m pre IH];
    intros fuel seconds_to_wait tstart tnow t rest fm out Hnow Hpre Hlate Hfuel;
    (destruct fuel as [|fuel]; [lia|]); cbn [app length] in *.
  - cbn [wait_seconds_loop]. apply Qlt_bool_true in Hnow. rewrite Hnow.
    erewrite bind_return; [|apply get_sim_time_here].
    destruct fuel as [|fuel]; [lia|]. cbn [wait_seconds_loop].
    apply Qlt_bool_false in Hlate. rewrite Hlate. reflexivity.
  - apply Forall_cons in Hpre as [Hm Hpre].
    destruct (mtype_eqb (get_type m) tSYSTEM_TIME) eqn:E.
    + apply mtype_eqb_eq in E. specialize (Hm E).
      destruct m; try discriminate. cbn [msg_time_boot_ms] in Hm.
      cbn [wait_seconds_loop]. apply Qlt_bool_true in Hnow. rewrite Hnow.
      erewrite bind_return; [|apply get_sim_time_here].
      apply IH; [exact Hm|exact Hpre|exact Hlate|lia].
    + rewrite wait_seconds_loop_skip.
      * apply (IH (S fuel)); [exact Hnow|exact Hpre|exact Hlate|lia].
      * intros H. apply mtype_eqb_eq in H. congruence.
      * exact Hnow.
Qed.

(** X13: [wait_seconds] returns on the first clock message that is more
    than [seconds_to_wait] later than the one it started on, having dropped
    what arrived before it, when the clock messages before that one are
    less than [seconds_to_wait] later than the first; "more" and "less" are
    by a millisecond or more (see [millisecond]), and so is the time to
    wait. With nothing to wait for it reads one clock message and returns.
    It never raises. *)
Theorem wait_seconds_returns_at_the_first_late_clock
    seconds_to_wait t0 pre t rest fm out :
  (well_below 0 seconds_to_wait ->
   Forall (fun m => get_type m = tSYSTEM_TIME ->
                    well_below (seconds (msg_time_boot_ms m))
                      (seconds t0 + seconds_to_wait)) pre ->
   well_below (seconds t0 + seconds_to_wait) (seconds t) ->
   wait_seconds seconds_to_wait
     (mkMavlink (SYSTEM_TIME t0 :: pre ++ SYSTEM_TIME t :: rest) fm out)
   = (Return tt, mkMavlink rest (mode_after pre fm) out))
  /\ (seconds_to_wait <= 0 ->
      wait_seconds seconds_to_wait (mkMavlink (SYSTEM_TIME t0 :: rest) fm out)
      = (Return tt, mkMavlink rest fm out)).
Proof.
  split.
  - intros Hpos Hpre Hlate. unfold wait_seconds.
    erewrite bind_return; [|apply get_sim_time_here].
    apply well_below_lt in Hpos. apply well_below_le in Hlate.
    apply wait_seconds_loop_returns; [lra| |exact Hlate|].
    + induction Hpre as [|m pre Hm _ IH]; constructor; [|exact IH].
      intros Hty. apply well_below_lt, Hm, Hty.
    + cbn [inbox length]. rewrite length_app. cbn [length]. lia.
  - intros Hneg. unfold wait_seconds.
    erewrite bind_return; [|apply get_sim_time_here].
    cbn [wait_seconds_loop].
    assert (H : Qlt_bool (seconds t0) (seconds t0 + seconds_to_wait) = false).
    { apply Qlt_bool_false. lra. }
    rewrite H. reflexivity.
Qed.

Lemma wait_seconds_returns_at_the_first_late_clock_witness :
  wait_seconds 1
    (mkMavlink (SYSTEM_TIME 700 :: [SYSTEM_TIME 1200; HEARTBEAT "GUIDED"]
                ++ SYSTEM_TIME 1701 :: [SYSTEM_TIME 2200]) "AUTO" [])
  = (Return tt, mkMavlink [SYSTEM_TIME 2200] "GUIDED" [])
  /\ wait_seconds 0 (mkMavlink (SYSTEM_TIME 0 :: [SYSTEM_TIME 500]) "AUTO" [])
     = (Return tt, mkMavlink [SYSTEM_TIME 500] "AUTO" []).
Proof.
  split.
  - apply (wait_seconds_returns_at_the_first_late_clock 1 700
             [SYSTEM_TIME 1200; HEARTBEAT "GUIDED"] 1701 [SYSTEM_TIME 2200] "AUTO" []).
    + vm_compute. discriminate.
    + repeat constructor; cbn; intros; try discriminate; vm_compute; discriminate.
    + vm_compute. discriminate.
  - apply (wait_seconds_returns_at_the_first_late_clock 0 0 [] 0 [SYSTEM_TIME 500]
             "AUTO" []).
    vm_compute. discriminate.
Defined.

(** ** [wait_distance] and [wait_location] *)

Section Distance.

Variable sqrt : Q -> Q.



Lemma wait_location_loop_returns fuel :
  forall loc accuracy timeout target_altitude height_accuracy tstart c b c',
    wait_location_loop sqrt fuel loc accuracy timeout target_altitude
      height_accuracy tstart c = (Return b, c') ->
    b = true
    /\ exists pos, In (POSITION pos) (inbox c)
                   /\ get_distance sqrt loc pos <= accuracy
                   /\ (height_accuracy == -1
                       \/ Qabs (alt pos - target_altitude) <= height_accuracy).
Proof.
  induction fuel as [|fuel IH];
    intros loc accuracy timeout target_altitude height_accuracy tstart c b c';
    cbn [wait_location_loop]; [discriminate|].
  destruct (get_sim_time_cases c) as [(t & pre & c1 & Ht & Hin)|[c1 Ht]];
    [|erewrite bind_blocked by exact Ht; discriminate].
  erewrite bind_return by exact Ht.
  destruct (Qlt_bool (seconds t) (tstart + timeout)); [|discriminate].
  destruct (mav_location_cases c1) as [(p & pre1 & c2 & Hp & Hin1)|[c2 Hp]];
    [|erewrite bind_blocked by exact Hp; discriminate].
  erewrite bind_return by exact Hp.
  assert (Hpos : In (POSITION p) (inbox c)).
  { rewrite Hin, Hin1. apply in_or_app. right. right.
    apply in_or_app. right. left. reflexivity. }
  assert (Hlater : forall b',
            (b' = true
             /\ exists pos, In (POSITION pos) (inbox c2)
                            /\ get_distance sqrt loc pos <= accuracy
                            /\ (height_accuracy == -1
                                \/ Qabs (alt pos - target_altitude) <= height_accuracy)) ->
            b' = true
            /\ exists pos, In (POSITION pos) (inbox c)
                           /\ get_distance sqrt loc pos <= accuracy
                           /\ (height_accuracy == -1
                               \/ Qabs (alt pos - target_altitude) <= height_accuracy)).
  { intros b' [Hb (pos & Hpos' & Hrest)]. split; [exact Hb|]. exists pos.
    split; [|exact Hrest].
    rewrite Hin, Hin1. apply in_or_app. right. right.
    apply in_or_app. right. right. exact Hpos'. }
  destruct (Qle_bool (get_distance sqrt loc p) accuracy) eqn:Hnear.
  - destruct (negb (Qeq_bool height_accuracy (-1))
              && Qlt_bool height_accuracy (Qabs (alt p - target_altitude)))
      eqn:Hheight.
    + intros H. apply IH in H. apply Hlater, H.
    + intros [= <- _]. split; [reflexivity|]. exists p.
      split; [exact Hpos|]. split; [apply Qle_bool_iff; exact Hnear|].
      apply andb_false_iff in Hheight as [Hoff|Hok].
      * left. apply negb_false_iff, Qeq_bool_iff in Hoff. exact Hoff.
      * right. apply Qlt_bool_false. exact Hok.
  - intros H. apply IH in H. apply Hlater, H.
Qed.

(** X15: [wait_location] returns only [True], and only when a position it
    read is within [accuracy] of the target and, unless [height_accuracy] is
    -1, within [height_accuracy] of the target altitude (the altitude of the
    target location when none is given). *)
Theorem wait_location_returns_at_the_target
    loc accuracy timeout target_altitude height_accuracy t0 l fm out b c' :
  wait_location sqrt loc accuracy timeout target_altitude height_accuracy
    (mkMavlink (SYSTEM_TIME t0 :: l) fm out) = (Return b, c') ->
  b = true
  /\ exists pos, In (POSITION pos) l
                 /\ get_distance sqrt loc pos <= accuracy
                 /\ (height_accuracy == -1
                     \/ Qabs (alt pos - match target_altitude with
                                        | None => alt loc
                                        | Some a => a
                                        end) <= height_accuracy).
Proof.
  unfold wait_location.
  erewrite bind_return; [|apply get_sim_time_here].
  intros H. apply wait_location_loop_returns in H. exact H.
Qed.

End Distance.


Lemma wait_location_returns_at_the_target_witness :
  true = true
  /\ exists pos, In (POSITION pos)
                   (position_tick (1000%Z, east) ++ position_tick (2000%Z, origin))
                 /\ get_distance sqrt_floor origin pos <= 5
                 /\ (- (1) == -1 \/ Qabs (alt pos - alt origin) <= - (1)).
Proof.
  apply (wait_location_returns_at_the_target sqrt_floor origin 5 30 None (-1) 0
           (position_tick (1000%Z, east) ++ position_tick (2000%Z, origin))
           "GUIDED" [] true (mkMavlink [] "GUIDED" [])).
  vm_compute. reflexivity.
Defined.

(** ** [wait_waypoint] *)











(** ** The sustained waits forget what came before a break *)



End MavMore.

(** * Facts about the simple waits, the mode wait and the estimator wait *)

Module TelemetryFacts.

Import Telemetry.
Local Open Scope Q_scope.

(** ** The connection *)

Lemma session_bind_return {A B} (m : T A) (k : A -> T B) s a s' :
  m s = (Return a, s') -> bind m k s = k a s'.
Proof. intros H. unfold bind. rewrite H. reflexivity. Qed.

Lemma session_bind_blocked {A B} (m : T A) (k : A -> T B) s s' :
  m s = (Blocked, s') -> bind m k s = (Blocked, s').
Proof. intros H. unfold bind. rewrite H. reflexivity. Qed.

Lemma session_bind_raised {A B} (m : T A) (k : A -> T B) s e s' :
  m s = (Raised e, s') -> bind m k s = (Raised e, s').
Proof. intros H. unfold bind. rewrite H. reflexivity. Qed.

Lemma mode_after_app l1 l2 fm :
  mode_after (l1 ++ l2) fm = mode_after l2 (mode_after l1 fm).
Proof. unfold mode_after. apply fold_left_app. Qed.

Lemma mode_after_heartbeat l fm :
  mode_after l fm = fm \/ In (HEARTBEAT (mode_after l fm)) l.
Proof.
  revert fm. induction l as [|m l IH]; intros fm; [left; reflexivity|].
  change (mode_after (m :: l) fm) with (mode_after l (post_message m fm)).
  destruct (IH (post_message m fm)) as [H|H].
  - rewrite H. destruct m; cbn [post_message]; auto.
    right. left. reflexivity.
  - right. right. exact H.
Qed.

Lemma session_recv_loop_spec ty l fm :
  match recv_loop ty l fm with
  | (None, (l', fm')) => l' = [] /\ fm' = mode_after l fm
  | (Some m, (l', fm')) =>
      exists pre, l = pre ++ m :: l' /\ kind_of m = ty
                  /\ Forall (fun x => kind_of x <> ty) pre
                  /\ fm' = mode_after (pre ++ [m]) fm
  end.
Proof.
  revert fm. induction l as [|m l IH]; intros fm; cbn [recv_loop].
  - split; reflexivity.
  - destruct (kind_eqb (kind_of m) ty) eqn:E.
    + exists []. repeat split.
      * destruct m, ty; cbn in E |- *; congruence.
      * constructor.
    + specialize (IH (post_message m fm)).
      destruct (recv_loop ty l (post_message m fm)) as [[m'|] [l' fm']].
      * destruct IH as (pre & -> & Hk & Hpre & ->).
        exists (m :: pre). repeat split; auto.
        constructor; [|exact Hpre].
        intros <-. destruct m; cbn in E; discriminate.
      * exact IH.
Qed.

Lemma read_on_refl s : read_on s s.
Proof. exists []. split; reflexivity. Qed.

Lemma read_on_trans s1 s2 s3 : read_on s1 s2 -> read_on s2 s3 -> read_on s1 s3.
Proof.
  intros (p1 & H1 & F1) (p2 & H2 & F2). exists (p1 ++ p2). split.
  - rewrite H1, H2, app_assoc. reflexivity.
  - rewrite F2, F1, mode_after_app. reflexivity.
Qed.

Lemma read_on_length s s' : read_on s s' -> (length (inbox s') <= length (inbox s))%nat.
Proof. intros (pre & -> & _). rewrite length_app. lia. Qed.

Lemma read_on_in s s' x : read_on s s' -> In x (inbox s') -> In x (inbox s).
Proof. intros (pre & -> & _) H. apply in_or_app. right. exact H. Qed.

(** A receive either blocks on an inbox it used up, or returns the first
    message of the type and leaves what follows it. *)
Lemma session_recv_match_cases ty s :
  (exists s', recv_match ty s = (Blocked, s') /\ inbox s' = []
              /\ read_on s s' /\ console s' = console s)
  \/ (exists m s' pre, recv_match ty s = (Return m, s')
        /\ inbox s = pre ++ m :: inbox s' /\ kind_of m = ty
        /\ Forall (fun x => kind_of x <> ty) pre
        /\ flightmode s' = mode_after (pre ++ [m]) (flightmode s)
        /\ console s' = console s).
Proof.
  unfold recv_match.
  pose proof (session_recv_loop_spec ty (inbox s) (flightmode s)) as H.
  destruct (recv_loop ty (inbox s) (flightmode s)) as [[m|] [l fm]].
  - destruct H as (pre & H1 & H2 & H3 & H4).
    right. exists m, (mkSession (console s) l fm), pre.
    repeat split; assumption.
  - destruct H as [-> ->]. left. eexists. repeat split.
    exists (inbox s). cbn [inbox flightmode]. rewrite app_nil_r.
    split; reflexivity.
Qed.

Lemma session_recv_match_here ty m c l fm :
  kind_of m = ty ->
  recv_match ty (mkSession c (m :: l) fm)
  = (Return m, mkSession c l (post_message m fm)).
Proof.
  intros H. unfold recv_match. cbn [inbox flightmode console recv_loop].
  replace (kind_eqb (kind_of m) ty) with true; [reflexivity|].
  rewrite H. destruct ty; reflexivity.
Qed.

Lemma session_get_sim_time_here t c l fm :
  get_sim_time (mkSession c (SYSTEM_TIME t :: l) fm)
  = (Return (Mav.seconds t), mkSession c l fm).
Proof. reflexivity. Qed.

Lemma session_get_sim_time_cases s :
  (exists s', get_sim_time s = (Blocked, s') /\ inbox s' = []
              /\ read_on s s' /\ console s' = console s)
  \/ (exists t s' pre, get_sim_time s = (Return (Mav.seconds t), s')
        /\ inbox s = pre ++ SYSTEM_TIME t :: inbox s'
        /\ flightmode s' = mode_after pre (flightmode s)
        /\ console s' = console s).
Proof.
  unfold get_sim_time.
  destruct (session_recv_match_cases kSYSTEM_TIME s)
    as [(s' & H & H1 & H2)|(m & s' & pre & H & H1 & H2 & H3 & H4 & H5)].
  - left. exists s'. rewrite (session_bind_blocked _ _ _ _ H). auto.
  - right. destruct m; try discriminate.
    exists time_boot_ms, s', pre. rewrite (session_bind_return _ _ _ _ _ H).
    repeat split; auto.
    rewrite H4, mode_after_app. reflexivity.
Qed.

Lemma get_sim_time_read_on s t s' :
  get_sim_time s = (Return t, s') ->
  read_on s s' /\ (length (inbox s') < length (inbox s))%nat
  /\ console s' = console s
  /\ exists ms, t = Mav.seconds ms /\ In (SYSTEM_TIME ms) (inbox s).
Proof.
  destruct (session_get_sim_time_cases s)
    as [(s1 & H & _)|(ms & s1 & pre & H & H1 & H2 & H3)];
    rewrite H; intros [= <- <-].
  repeat split.
  - exists (pre ++ [SYSTEM_TIME ms]). rewrite <- app_assoc. split; [exact H1|].
    rewrite mode_after_app. exact H2.
  - rewrite H1, length_app. cbn [length]. lia.
  - exact H3.
  - exists ms. split; [reflexivity|]. rewrite H1. apply in_elt.
Qed.

Lemma wait_heartbeat_cases s :
  (exists s', wait_heartbeat s = (Blocked, s') /\ inbox s' = []
              /\ read_on s s' /\ console s' = console s)
  \/ (exists h s' pre, wait_heartbeat s = (Return tt, s')
        /\ inbox s = pre ++ HEARTBEAT h :: inbox s'
        /\ flightmode s' = h
        /\ console s' = console s).
Proof.
  unfold wait_heartbeat.
  destruct (session_recv_match_cases kHEARTBEAT s)
    as [(s' & H & H1 & H2)|(m & s' & pre & H & H1 & H2 & H3 & H4 & H5)].
  - left. exists s'. rewrite (session_bind_blocked _ _ _ _ H). auto.
  - right. destruct m; try discriminate.
    exists flightmode0, s', pre. rewrite (session_bind_return _ _ _ _ _ H).
    repeat split; auto.
    rewrite H4, mode_after_app. reflexivity.
Qed.

Lemma heartbeat_read_on s pre h s' :
  inbox s = pre ++ HEARTBEAT h :: inbox s' -> flightmode s' = h -> read_on s s'.
Proof.
  intros H1 H2. exists (pre ++ [HEARTBEAT h]). rewrite <- app_assoc.
  split; [exact H1|]. rewrite mode_after_app. exact H2.
Qed.

Lemma bind_bind {A B C} (m : T A) (f : A -> T B) (k : B -> T C) s :
  bind (bind m f) k s = bind m (fun x => bind (f x) k) s.
Proof. unfold bind. destruct (m s) as [[a|e|] s1]; reflexivity. Qed.

Lemma length_split {A} (pre : list A) x l l' :
  l = pre ++ x :: l' -> (length l' < length l)%nat.
Proof. intros ->. rewrite length_app. cbn [length]. lia. Qed.

(** ** The four simple waits *)

Section ThresholdFacts.

Variable ty : kind.
Variable accepts : message -> bool.
Variable failure : error.


Lemma threshold_loop_rejects timeout tstart pre : forall fuel c fm tail,
  (length pre < fuel)%nat ->
  Forall (rejected ty accepts timeout tstart) pre ->
  exists fm',
    threshold_loop ty accepts failure fuel timeout tstart
      (mkSession c (ticks pre ++ tail) fm)
    = threshold_loop ty accepts failure (fuel - length pre) timeout tstart
        (mkSession c tail fm').
Proof.
  induction pre as [|[t m] pre IH]; intros fuel c fm tail Hlen Hpre.
  - exists fm. cbn [ticks flat_map app length]. rewrite Nat.sub_0_r. reflexivity.
  - apply Forall_cons in Hpre. destruct Hpre as [(Ht & Hk & Hm) Hpre].
    cbn [fst snd] in Ht, Hk, Hm. cbn [length] in Hlen.
    destruct fuel as [|fuel]; [lia|].
    destruct (IH fuel c (post_message m fm) tail) as [fm' E]; [lia|exact Hpre|].
    exists fm'.
    change (S fuel - length ((t, m) :: pre))%nat with (fuel - length pre)%nat.
    rewrite <- E.
    change (ticks ((t, m) :: pre) ++ tail)
      with (SYSTEM_TIME t :: m :: (ticks pre ++ tail)).
    cbn [threshold_loop].
    rewrite (session_bind_return _ _ _ _ _ (session_get_sim_time_here _ _ _ _)).
    replace (Mav.Qlt_bool (Mav.seconds t) (tstart + timeout)) with true
      by (symmetry; apply MavFacts.Qlt_bool_true; exact Ht).
    rewrite (session_bind_return _ _ _ _ _ (session_recv_match_here _ _ _ _ _ Hk)).
    rewrite Hm. reflexivity.
Qed.


Lemma threshold_loop_deadline timeout tstart pre fuel c fm t rest :
  (length pre < fuel)%nat ->
  Forall (rejected ty accepts timeout tstart) pre ->
  tstart + timeout <= Mav.seconds t ->
  exists fm',
    threshold_loop ty accepts failure fuel timeout tstart
      (mkSession c (ticks pre ++ SYSTEM_TIME t :: rest) fm)
    = (Raised failure, mkSession c rest fm').
Proof.
  intros Hlen Hpre Ht.
  destruct (threshold_loop_rejects timeout tstart pre fuel c fm
              (SYSTEM_TIME t :: rest) Hlen Hpre) as [fm' ->].
  destruct (fuel - length pre)%nat as [|k] eqn:E; [lia|].
  exists fm'. cbn [threshold_loop].
  rewrite (session_bind_return _ _ _ _ _ (session_get_sim_time_here _ _ _ _)).
  replace (Mav.Qlt_bool (Mav.seconds t) (tstart + timeout)) with false
    by (symmetry; apply MavFacts.Qlt_bool_false; exact Ht).
  reflexivity.
Qed.

End ThresholdFacts.

Lemma ticks_length pre : length (ticks pre) = (2 * length pre)%nat.
Proof.
  induction pre as [|tm pre IH]; [reflexivity|].
  change (ticks (tm :: pre)) with (SYSTEM_TIME (fst tm) :: snd tm :: ticks pre).
  cbn [length]. lia.
Qed.

Section SimpleFacts.

Variable degrees : Q -> Q.

Lemma wait_altitude_loop_threshold alt_min alt_max relative timeout tstart fuel :
  forall s,
    wait_altitude_loop fuel alt_min alt_max timeout relative tstart s
    = threshold_loop kGLOBAL_POSITION_INT
        (accepts degrees (Altitude alt_min alt_max relative))
        WaitAltitudeTimout fuel timeout tstart s.
Proof.
  induction fuel as [|fuel IH]; intros s; [reflexivity|].
  cbn [wait_altitude_loop threshold_loop]. unfold bind.
  destruct (get_sim_time s) as [[now| |] s1]; try reflexivity.
  destruct (Mav.Qlt_bool now (tstart + timeout)); [|reflexivity].
  destruct (recv_match kGLOBAL_POSITION_INT s1) as [[m| |] s2]; try reflexivity.
  cbn [accepts]. cbv zeta.
  match goal with |- (if ?b then _ else _) _ = _ => destruct b end;
    [reflexivity|apply IH].
Qed.

Lemma wait_groundspeed_loop_threshold gs_min gs_max timeout tstart fuel :
  forall s,
    wait_groundspeed_loop fuel gs_min gs_max timeout tstart s
    = threshold_loop kVFR_HUD (accepts degrees (GroundSpeed gs_min gs_max))
        WaitGroundSpeedTimeout fuel timeout tstart s.
Proof.
  induction fuel as [|fuel IH]; intros s; [reflexivity|].
  cbn [wait_groundspeed_loop threshold_loop]. unfold bind.
  destruct (get_sim_time s) as [[now| |] s1]; try reflexivity.
  destruct (Mav.Qlt_bool now (tstart + timeout)); [|reflexivity].
  destruct (recv_match kVFR_HUD s1) as [[m| |] s2]; try reflexivity.
  cbn [accepts]. cbv zeta.
  match goal with |- (if ?b then _ else _) _ = _ => destruct b end;
    [reflexivity|apply IH].
Qed.

Lemma wait_roll_loop_threshold roll accuracy timeout tstart fuel :
  forall s,
    wait_roll_loop degrees fuel roll accuracy timeout tstart s
    = threshold_loop kATTITUDE (accepts degrees (Roll roll accuracy))
        WaitRollTimeout fuel timeout tstart s.
Proof.
  induction fuel as [|fuel IH]; intros s; [reflexivity|].
  cbn [wait_roll_loop threshold_loop]. unfold bind.
  destruct (get_sim_time s) as [[now| |] s1]; try reflexivity.
  destruct (Mav.Qlt_bool now (tstart + timeout)); [|reflexivity].
  destruct (recv_match kATTITUDE s1) as [[m| |] s2]; try reflexivity.
  cbn [accepts]. cbv zeta.
  match goal with |- (if ?b then _ else _) _ = _ => destruct b end;
    [reflexivity|apply IH].
Qed.

Lemma wait_pitch_loop_threshold pitch accuracy timeout tstart fuel :
  forall s,
    wait_pitch_loop degrees fuel pitch accuracy timeout tstart s
    = threshold_loop kATTITUDE (accepts degrees (Pitch pitch accuracy))
        WaitPitchTimeout fuel timeout tstart s.
Proof.
  induction fuel as [|fuel IH]; intros s; [reflexivity|].
  cbn [wait_pitch_loop threshold_loop]. unfold bind.
  destruct (get_sim_time s) as [[now| |] s1]; try reflexivity.
  destruct (Mav.Qlt_bool now (tstart + timeout)); [|reflexivity].
  destruct (recv_match kATTITUDE s1) as [[m| |] s2]; try reflexivity.
  cbn [accepts]. cbv zeta.
  match goal with |- (if ?b then _ else _) _ = _ => destruct b end;
    [reflexivity|apply IH].
Qed.

(** Each simple wait is the common loop at its own sample type, test and
    exception. *)
Lemma simple_wait_run_threshold w timeout s :
  simple_wait_run degrees w timeout s
  = (tstart <- get_sim_time ;;
     threshold_loop (sample_kind w) (accepts degrees w) (failure_of w)
       (S (length (inbox s))) timeout tstart) s.
Proof.
  destruct w; cbn [simple_wait_run sample_kind failure_of];
    unfold wait_altitude, wait_groundspeed, wait_roll, wait_pitch, bind;
    destruct (get_sim_time s) as [[tstart| |] s1]; try reflexivity.
  - apply wait_altitude_loop_threshold.
  - apply wait_groundspeed_loop_threshold.
  - apply wait_roll_loop_threshold.
  - apply wait_pitch_loop_threshold.
Qed.



(** X22, on [wait_altitude], [wait_groundspeed], [wait_roll], [wait_pitch]:
    the deadline is tested before a sample is read. On telemetry in which
    a clock message precedes every sample, a simple wait whose samples so
    far were read before the deadline and failed its test raises its
    timeout at the first clock message past the deadline, and reads
    nothing after that clock message, whatever follows it. "Before" and
    "past" are by a millisecond or more (see [Mav.millisecond]). *)
Theorem simple_wait_deadline_comes_first w timeout c fm t0 pre t rest :
  Forall (fun tm => Mav.well_below (Mav.seconds (fst tm))
                      (Mav.seconds t0 + timeout)
                    /\ kind_of (snd tm) = sample_kind w
                    /\ accepts degrees w (snd tm) = false) pre ->
  Mav.well_below (Mav.seconds t0 + timeout) (Mav.seconds t) ->
  let s := mkSession c (SYSTEM_TIME t0 :: ticks pre ++ SYSTEM_TIME t :: rest) fm in
  fst (simple_wait_run degrees w timeout s) = Raised (failure_of w)
  /\ inbox (snd (simple_wait_run degrees w timeout s)) = rest.
Proof.
  intros Hpre Ht s. subst s.
  apply MavFacts.well_below_le in Ht.
  assert (Hpre' : Forall (rejected (sample_kind w) (accepts degrees w) timeout
                            (Mav.seconds t0)) pre).
  { induction Hpre as [|tm pre (H1 & H2 & H3) _ IH]; constructor; [|exact IH].
    repeat split; [apply MavFacts.well_below_lt, H1|exact H2|exact H3]. }
  rewrite simple_wait_run_threshold.
  rewrite (session_bind_return _ _ _ _ _ (session_get_sim_time_here _ _ _ _)).
  destruct (threshold_loop_deadline (sample_kind w) (accepts degrees w)
              (failure_of w) timeout (Mav.seconds t0) pre
              (S (length (inbox (mkSession c
                   (SYSTEM_TIME t0 :: ticks pre ++ SYSTEM_TIME t :: rest) fm))))
              c fm t rest) as [fm' ->]; auto.
  cbn [inbox length]. rewrite length_app, ticks_length. lia.
Qed.

End SimpleFacts.



Lemma simple_wait_deadline_comes_first_witness :
  fst (simple_wait_run Mav.degrees_355_113 (Roll 30 5) 2
         (mkSession (Params.reliable ∅)
            (SYSTEM_TIME 1400 :: ticks [(2400%Z, ATTITUDE 0 0)]
             ++ SYSTEM_TIME 3401 :: [ATTITUDE (1 # 2) 0]) ""))
  = Raised WaitRollTimeout.
Proof.
  apply (simple_wait_deadline_comes_first Mav.degrees_355_113 (Roll 30 5) 2
           (Params.reliable ∅) "" 1400 [(2400%Z, ATTITUDE 0 0)]
           3401 [ATTITUDE (1 # 2) 0]).
  - repeat constructor; vm_compute; try reflexivity; discriminate.
  - vm_compute. discriminate.
Defined.

(** ** The mode wait *)

Lemma wait_mode_loop_sound mode timeout tstart fuel : forall s o s',
  (length (inbox s) < fuel)%nat ->
  wait_mode_loop fuel mode timeout tstart s = (o, s') ->
  read_on s s'
  /\ match o with
     | Return _ => flightmode s' = mode
     | Raised e => e = WaitModeTimeout /\ timeout <> None
     | Blocked => inbox s' = []
     end.
Proof.
  induction fuel as [|fuel IH]; intros s o s' Hlen; [lia|].
  cbn [wait_mode_loop].
  change (bind get_flightmode ?k s) with (k (flightmode s) s). cbv beta.
  destruct (String.eqb (flightmode s) mode) eqn:Hfm; cbn [negb].
  { intros [= <- <-]. split; [apply read_on_refl|].
    apply String.eqb_eq. exact Hfm. }
  assert (Hbeat : forall s1, read_on s s1 ->
            (wait_heartbeat ;;; wait_mode_loop fuel mode timeout tstart) s1 = (o, s') ->
            read_on s s'
            /\ match o with
               | Return _ => flightmode s' = mode
               | Raised e => e = WaitModeTimeout /\ timeout <> None
               | Blocked => inbox s' = []
               end).
  { intros s1 Hs1.
    destruct (wait_heartbeat_cases s1)
      as [(s2 & H & H1 & H2 & _)|(h & s2 & pre & H & H1 & H2 & _)].
    - rewrite (session_bind_blocked _ _ _ _ H). intros [= <- <-].
      split; [eapply read_on_trans; eauto|exact H1].
    - rewrite (session_bind_return _ _ _ _ _ H). intros Hrun.
      pose proof (heartbeat_read_on _ _ _ _ H1 H2) as H12.
      apply IH in Hrun.
      + destruct Hrun as [Hr Ho]. split; [|exact Ho].
        eapply read_on_trans; [|exact Hr]. eapply read_on_trans; eauto.
      + apply read_on_length in Hs1. apply length_split in H1. lia. }
  destruct timeout as [timeout|].
  - rewrite bind_bind.
    destruct (get_sim_time s) as [[now|e|] s1] eqn:Hnow.
    + rewrite (session_bind_return _ _ _ _ _ Hnow).
      apply get_sim_time_read_on in Hnow. destruct Hnow as (Hr & _).
      change (bind (ret ?a) ?k s1) with (k a s1). cbv beta.
      destruct (Mav.Qlt_bool (tstart + timeout) now).
      * intros [= <- <-]. split; [exact Hr|]. split; [reflexivity|discriminate].
      * apply Hbeat. exact Hr.
    + exfalso. destruct (session_get_sim_time_cases s)
        as [(? & H & _)|(? & ? & ? & H & _)]; rewrite H in Hnow; discriminate.
    + destruct (session_get_sim_time_cases s)
        as [(s2 & H & H1 & H2 & _)|(? & ? & ? & H & _)];
        rewrite H in Hnow; [|discriminate].
      injection Hnow as <-.
      rewrite (session_bind_blocked _ _ _ _ H). intros [= <- <-]. auto.
  - change (bind (ret ?a) ?k s) with (k a s). cbv beta.
    intros Hrun. destruct (Hbeat s (read_on_refl s) Hrun) as [Hr Ho].
    split; [exact Hr|].
    destruct o as [u|e|]; auto.
Qed.

Lemma existsb_eqb_In mode modes :
  existsb (String.eqb mode) modes = true <-> In mode modes.
Proof.
  rewrite existsb_exists. split.
  - intros (x & Hx & E). apply String.eqb_eq in E. subst x. exact Hx.
  - intros H. exists mode. split; [exact H|apply String.eqb_refl].
Qed.

(** X23, on [wait_mode]:
    a mode the vehicle does not know is refused before
    the connection is touched. When [mode_mapping()] gave a table without
    the mode the exception is [ErrorException]; when it gave [None] it is
    the [AttributeError] of the progress line that prints the table's
    keys, and [ErrorException] is never reached. *)
Theorem wait_mode_unknown_mode mode_map mode timeout s :
  (forall modes, mode_map = Some modes -> ~ In mode modes) ->
  exists e,
    wait_mode mode_map mode timeout s = (Raised e, s)
    /\ (e = AttributeError <-> mode_map = None)
    /\ (e = ErrorException <-> mode_map <> None).
Proof.
  intros H. destruct mode_map as [modes|]; cbn [wait_mode].
  - replace (existsb (String.eqb mode) modes) with false.
    + exists ErrorException. cbn [negb]. repeat split; try discriminate; auto.
    + symmetry. apply not_true_is_false. rewrite existsb_eqb_In.
      apply H. reflexivity.
  - exists AttributeError. repeat split; try discriminate; auto.
    intros Hn. exfalso. apply Hn. reflexivity.
Qed.

Lemma wait_mode_unknown_mode_witness :
  exists e,
    wait_mode (Some ["MANUAL"; "AUTO"]) "LOITER" (Some 60)
      (mkSession (Params.reliable ∅) [SYSTEM_TIME 0; HEARTBEAT "LOITER"] "LOITER")
    = (Raised e,
       mkSession (Params.reliable ∅) [SYSTEM_TIME 0; HEARTBEAT "LOITER"] "LOITER")
    /\ (e = AttributeError <-> Some ["MANUAL"; "AUTO"] = None)
    /\ (e = ErrorException <-> Some ["MANUAL"; "AUTO"] <> None).
Proof.
  apply (wait_mode_unknown_mode (Some ["MANUAL"; "AUTO"]) "LOITER" (Some 60)).
  intros modes [= <-] [H|[H|[]]]; discriminate.
Defined.

(** X24, on [wait_mode]:
    for a known mode, [wait_mode] returns only in a state
    whose flight mode is the mode asked for, and only after a heartbeat
    with that mode was read; the only exception is [WaitModeTimeout], and
    never when the timeout is [None]; it blocks only on an inbox it has
    used up. The messages left are a suffix of the inbox. *)
Theorem wait_mode_outcomes modes mode timeout s o s' :
  In mode modes ->
  wait_mode (Some modes) mode timeout s = (o, s') ->
  exists pre,
    inbox s = pre ++ inbox s'
    /\ match o with
       | Return _ => flightmode s' = mode /\ In (HEARTBEAT mode) pre
       | Raised e => e = WaitModeTimeout /\ timeout <> None
       | Blocked => inbox s' = []
       end.
Proof.
  intros Hin. cbn [wait_mode].
  replace (existsb (String.eqb mode) modes) with true
    by (symmetry; apply existsb_eqb_In; exact Hin).
  cbn [negb].
  destruct (get_sim_time s) as [[tstart|e|] s1] eqn:Hnow.
  - rewrite (session_bind_return _ _ _ _ _ Hnow).
    apply get_sim_time_read_on in Hnow.
    destruct Hnow as ((p1 & Hp1 & _) & Hl1 & _).
    destruct (wait_heartbeat_cases s1)
      as [(s2 & H & H1 & (p2 & Hp2 & _) & _)|(h & s2 & p2 & H & H1 & H2 & _)].
    + rewrite (session_bind_blocked _ _ _ _ H). intros [= <- <-].
      exists (p1 ++ p2). rewrite <- app_assoc, <- Hp2. auto.
    + rewrite (session_bind_return _ _ _ _ _ H). intros Hrun.
      apply wait_mode_loop_sound in Hrun;
        [|apply length_split in H1; lia].
      destruct Hrun as [(p3 & Hp3 & Hf3) Ho].
      exists (p1 ++ (p2 ++ [HEARTBEAT h]) ++ p3). split.
      * rewrite Hp1, H1, Hp3, <- !app_assoc. reflexivity.
      * destruct o as [u|e|]; [|exact Ho|exact Ho].
        split; [exact Ho|].
        apply in_or_app. right.
        rewrite H2 in Hf3. rewrite Ho in Hf3.
        destruct (mode_after_heartbeat p3 h) as [E|E].
        -- apply in_or_app. left. apply in_or_app. right. left.
           congruence.
        -- apply in_or_app. right. rewrite <- Hf3 in E. exact E.
  - exfalso. destruct (session_get_sim_time_cases s)
      as [(? & H & _)|(? & ? & ? & H & _)]; rewrite H in Hnow; discriminate.
  - destruct (session_get_sim_time_cases s)
      as [(s2 & H & H1 & (p & Hp & _) & _)|(? & ? & ? & H & _)];
      rewrite H in Hnow; [|discriminate].
    injection Hnow as <-.
    rewrite (session_bind_blocked _ _ _ _ H). intros [= <- <-].
    exists p. auto.
Qed.

Lemma wait_mode_outcomes_witness :
  exists pre,
    [SYSTEM_TIME 0; HEARTBEAT "MANUAL"; SYSTEM_TIME 1000; HEARTBEAT "AUTO";
     SYSTEM_TIME 2000]
    = pre ++ [SYSTEM_TIME 2000]
    /\ "AUTO" = "AUTO" /\ In (HEARTBEAT "AUTO") pre.
Proof.
  assert (E : wait_mode (Some ["MANUAL"; "AUTO"]) "AUTO" (Some 60)
                (mkSession (Params.reliable ∅)
                   [SYSTEM_TIME 0; HEARTBEAT "MANUAL"; SYSTEM_TIME 1000;
                    HEARTBEAT "AUTO"; SYSTEM_TIME 2000] "")
              = (Return tt, mkSession (Params.reliable ∅) [SYSTEM_TIME 2000] "AUTO"))
    by (vm_compute; reflexivity).
  assert (Hin : In "AUTO" ["MANUAL"; "AUTO"]) by (right; left; reflexivity).
  exact (wait_mode_outcomes _ _ _ _ _ _ Hin E).
Defined.

Lemma wait_mode_loop_beats mode timeout tstart c rest pre : forall fuel h,
  (length pre < fuel)%nat ->
  Forall (fun ht => fst ht <> mode
                    /\ match timeout with
                       | None => True
                       | Some timeout => Mav.seconds (snd ht) <= tstart + timeout
                       end) pre ->
  (wait_heartbeat ;;; wait_mode_loop fuel mode timeout tstart)
    (mkSession c (beats pre ++ HEARTBEAT mode :: rest) h)
  = (Return tt, mkSession c rest mode).
Proof.
  induction pre as [|[h1 t1] pre IH]; intros fuel h Hlen Hpre.
  - destruct fuel as [|fuel]; [cbn [length] in Hlen; lia|].
    cbn [beats flat_map app].
    unfold wait_heartbeat. rewrite bind_bind.
    rewrite (session_bind_return _ _ _ _ _
               (session_recv_match_here kHEARTBEAT (HEARTBEAT mode) c rest h eq_refl)).
    cbn [post_message wait_mode_loop].
    change (bind (ret ?a) ?k ?s) with (k a s). cbv beta.
    change (bind get_flightmode ?k ?s) with (k (flightmode s) s). cbv beta.
    cbn [flightmode]. rewrite String.eqb_refl. reflexivity.
  - apply Forall_cons in Hpre. destruct Hpre as [[Hh Ht] Hpre].
    cbn [fst snd] in Hh, Ht. cbn [length] in Hlen.
    destruct fuel as [|fuel]; [lia|].
    change (beats ((h1, t1) :: pre) ++ HEARTBEAT mode :: rest)
      with (HEARTBEAT h1 :: SYSTEM_TIME t1 :: (beats pre ++ HEARTBEAT mode :: rest)).
    unfold wait_heartbeat at 1. rewrite bind_bind.
    rewrite (session_bind_return _ _ _ _ _
               (session_recv_match_here kHEARTBEAT (HEARTBEAT h1) c _ h eq_refl)).
    cbn [post_message].
    change (bind (ret ?a) ?k ?s) with (k a s). cbv beta.
    cbn [wait_mode_loop].
    change (bind get_flightmode ?k ?s) with (k (flightmode s) s). cbv beta.
    cbn [flightmode].
    replace (String.eqb h1 mode) with false
      by (symmetry; apply String.eqb_neq; exact Hh).
    cbn [negb].
    destruct timeout as [timeout|].
    + rewrite bind_bind.
      rewrite (session_bind_return _ _ _ _ _ (session_get_sim_time_here _ _ _ _)).
      change (bind (ret ?a) ?k ?s) with (k a s). cbv beta.
      replace (Mav.Qlt_bool (tstart + timeout) (Mav.seconds t1)) with false
        by (symmetry; apply MavFacts.Qlt_bool_false; exact Ht).
      apply IH; [lia|exact Hpre].
    + change (bind (ret ?a) ?k ?s) with (k a s). cbv beta.
      rewrite <- (IH fuel h1); [|lia|exact Hpre].
      unfold wait_heartbeat. rewrite !bind_bind.
      unfold bind at 1 3. unfold recv_match.
      cbn [inbox flightmode console recv_loop kind_of kind_eqb post_message].
      reflexivity.
Qed.

Lemma beats_length pre : length (beats pre) = (2 * length pre)%nat.
Proof.
  induction pre as [|ht pre IH]; [reflexivity|].
  change (beats (ht :: pre))
    with (HEARTBEAT (fst ht) :: SYSTEM_TIME (snd ht) :: beats pre).
  cbn [length]. lia.
Qed.

(** X25, on [wait_mode]:
    on a stream of heartbeats, each followed by a clock message,
    [wait_mode] for a known mode returns at the first heartbeat that
    carries the mode and leaves the messages after it, provided every
    clock message before it is earlier than the first clock message's time
    plus the timeout, by a millisecond or more (see [Mav.millisecond]).
    With a timeout of [None] the times do not matter. *)
Theorem wait_mode_returns_at_first_matching_heartbeat
    modes mode timeout c fm t0 pre rest :
  In mode modes ->
  Forall (fun ht => fst ht <> mode
                    /\ match timeout with
                       | None => True
                       | Some timeout =>
                           Mav.well_below (Mav.seconds (snd ht))
                             (Mav.seconds t0 + timeout)
                       end) pre ->
  wait_mode (Some modes) mode timeout
    (mkSession c (SYSTEM_TIME t0 :: beats pre ++ HEARTBEAT mode :: rest) fm)
  = (Return tt, mkSession c rest mode).
Proof.
  intros Hin Hpre0.
  assert (Hpre : Forall (fun ht => fst ht <> mode
                           /\ match timeout with
                              | None => True
                              | Some timeout =>
                                  Mav.seconds (snd ht) <= Mav.seconds t0 + timeout
                              end) pre).
  { induction Hpre0 as [|ht pre [H1 H2] _ IH]; constructor; [|exact IH].
    split; [exact H1|]. destruct timeout; [|exact I].
    apply MavFacts.well_below_le, H2. }
  clear Hpre0. cbn [wait_mode].
  replace (existsb (String.eqb mode) modes) with true
    by (symmetry; apply existsb_eqb_In; exact Hin).
  cbn [negb].
  rewrite (session_bind_return _ _ _ _ _ (session_get_sim_time_here _ _ _ _)).
  apply wait_mode_loop_beats; [|exact Hpre].
  cbn [inbox length]. rewrite length_app, beats_length. lia.
Qed.

Lemma wait_mode_returns_at_first_matching_heartbeat_witness :
  wait_mode (Some ["MANUAL"; "AUTO"]) "AUTO" (Some 60)
    (mkSession (Params.reliable ∅)
       (SYSTEM_TIME 300 :: beats [("MANUAL", 1300%Z); ("MANUAL", 60299%Z)]
        ++ HEARTBEAT "AUTO" :: [SYSTEM_TIME 90000]) "")
  = (Return tt, mkSession (Params.reliable ∅) [SYSTEM_TIME 90000] "AUTO").
Proof.
  apply (wait_mode_returns_at_first_matching_heartbeat ["MANUAL"; "AUTO"] "AUTO"
           (Some 60) (Params.reliable ∅) "" 300
           [("MANUAL", 1300%Z); ("MANUAL", 60299%Z)] [SYSTEM_TIME 90000]).
  - right. left. reflexivity.
  - repeat constructor; try discriminate; vm_compute; discriminate.
Defined.

(** ** The estimator wait *)

Lemma int_of_float_10 v : 10 <= v -> v < 11 -> int_of_float v = 10%Z.
Proof.
  destruct v as [n d]. unfold Qle, Qlt, int_of_float. cbn [Qnum Qden].
  intros H1 H2.
  rewrite Z.quot_div_nonneg by lia.
  symmetry. apply Z.div_unique with (r := (n - 10 * Z.pos d)%Z); lia.
Qed.

Lemma wait_ekf_happy_loop_sound required_value error_bits timeout tstart fuel :
  forall s o s',
    (length (inbox s) < fuel)%nat ->
    wait_ekf_happy_loop fuel required_value error_bits timeout tstart s = (o, s') ->
    match o with
    | Return b =>
        b = true
        /\ exists f, In (EKF_STATUS_REPORT f) (inbox s)
                     /\ healthy required_value error_bits f
    | Raised e =>
        e = AutoTestTimeoutException
        /\ exists timeout' t,
             timeout = Some timeout' /\ In (SYSTEM_TIME t) (inbox s)
             /\ tstart + timeout' <= Mav.seconds t
    | Blocked => inbox s' = []
    end.
Proof.
  induction fuel as [|fuel IH]; intros s o s' Hlen; [lia|].
  cbn [wait_ekf_happy_loop].
  set (body := bind (recv_match kEKF_STATUS_REPORT) _).
  assert (Hbody : forall s1, read_on s s1 -> body s1 = (o, s') ->
            match o with
            | Return b =>
                b = true
                /\ exists f, In (EKF_STATUS_REPORT f) (inbox s)
                             /\ healthy required_value error_bits f
            | Raised e =>
                e = AutoTestTimeoutException
                /\ exists timeout' t,
                     timeout = Some timeout' /\ In (SYSTEM_TIME t) (inbox s)
                     /\ tstart + timeout' <= Mav.seconds t
            | Blocked => inbox s' = []
            end).
  { intros s1 Hs1. subst body.
    destruct (session_recv_match_cases kEKF_STATUS_REPORT s1)
      as [(s2 & H & H1 & _)|(m & s2 & pre & H & H1 & Hk & _ & Hf & _)].
    { rewrite (session_bind_blocked _ _ _ _ H). intros [= <- <-]. exact H1. }
    rewrite (session_bind_return _ _ _ _ _ H).
    destruct m as [| | | | |f]; try discriminate. cbn [m_flags].
    assert (Hs2 : read_on s1 s2).
    { exists (pre ++ [EKF_STATUS_REPORT f]). rewrite <- app_assoc. auto. }
    destruct (get_sim_time s2) as [[now|e|] s3] eqn:Hnow.
    - rewrite (session_bind_return _ _ _ _ _ Hnow).
      apply get_sim_time_read_on in Hnow. destruct Hnow as (Hs3 & Hl3 & _).
      assert (Hrec : wait_ekf_happy_loop fuel required_value error_bits timeout
                       tstart s3 = (o, s') ->
                match o with
                | Return b =>
                    b = true
                    /\ exists f, In (EKF_STATUS_REPORT f) (inbox s)
                                 /\ healthy required_value error_bits f
                | Raised e =>
                    e = AutoTestTimeoutException
                    /\ exists timeout' t,
                         timeout = Some timeout' /\ In (SYSTEM_TIME t) (inbox s)
                         /\ tstart + timeout' <= Mav.seconds t
                | Blocked => inbox s' = []
                end).
      { intros Hrun. apply IH in Hrun.
        - assert (Hin : forall x, In x (inbox s3) -> In x (inbox s)).
          { intros x Hx. eapply read_on_in; [exact Hs1|].
            eapply read_on_in; [exact Hs2|].
            eapply read_on_in; [exact Hs3|exact Hx]. }
          destruct o as [b|e|]; [| |exact Hrun].
          + destruct Hrun as [-> (x & Hx & Hx')]. split; [reflexivity|].
            exists x. split; [apply Hin, Hx|exact Hx'].
          + destruct Hrun as [-> (x & t & Hx & Ht & Hx')]. split; [reflexivity|].
            exists x, t. repeat split; auto.
        - apply read_on_length in Hs1. apply read_on_length in Hs2. lia. }
      destruct (Z.land f error_bits =? 0)%Z eqn:He; cbn [negb]; [|exact Hrec].
      destruct (Z.land f required_value =? required_value)%Z eqn:Hr;
        [|exact Hrec].
      intros [= <- <-]. split; [reflexivity|]. exists f. split.
      + eapply read_on_in; [exact Hs1|]. rewrite H1. apply in_elt.
      + split; [apply Z.eqb_eq, He|apply Z.eqb_eq, Hr].
    - exfalso. destruct (session_get_sim_time_cases s2)
        as [(? & H' & _)|(? & ? & ? & H' & _)]; rewrite H' in Hnow; discriminate.
    - destruct (session_get_sim_time_cases s2)
        as [(s4 & H' & H1' & _)|(? & ? & ? & H' & _)];
        rewrite H' in Hnow; [|discriminate].
      injection Hnow as <-.
      rewrite (session_bind_blocked _ _ _ _ H'). intros [= <- <-]. exact H1'. }
  destruct timeout as [timeout|].
  - rewrite bind_bind.
    destruct (get_sim_time s) as [[now|e|] s1] eqn:Hnow.
    + rewrite (session_bind_return _ _ _ _ _ Hnow).
      apply get_sim_time_read_on in Hnow.
      destruct Hnow as (Hr & _ & _ & ms & -> & Hms).
      change (bind (ret ?a) ?k s1) with (k a s1). cbv beta.
      destruct (Mav.Qlt_bool (Mav.seconds ms) (tstart + timeout)) eqn:Ht.
      * apply Hbody. exact Hr.
      * intros [= <- <-]. split; [reflexivity|].
        exists timeout, ms. repeat split; auto.
        apply MavFacts.Qlt_bool_false. exact Ht.
    + exfalso. destruct (session_get_sim_time_cases s)
        as [(? & H & _)|(? & ? & ? & H & _)]; rewrite H in Hnow; discriminate.
    + destruct (session_get_sim_time_cases s)
        as [(s2 & H & H1 & _)|(? & ? & ? & H & _)];
        rewrite H in Hnow; [|discriminate].
      injection Hnow as <-.
      rewrite (session_bind_blocked _ _ _ _ H). intros [= <- <-]. exact H1.
  - change (bind (ret ?a) ?k s) with (k a s). cbv beta.
    apply Hbody. apply read_on_refl.
Qed.

(** X26, on [wait_ekf_happy], [wait_ready_to_arm]:
    when the parameter table
    holds an [AHRS_EKF_TYPE] whose integer part is 10, the wait returns
    [True] as soon as the fetch is answered, whatever the timeout and the
    telemetry; when that one fetch times out, [int(None)] raises
    [TypeError]. In both cases no telemetry is read. *)
Theorem wait_ekf_happy_sitl_estimates required_value error_bits timeout s v :
  Params.params (console s) !! "AHRS_EKF_TYPE" = Some v ->
  10 <= v -> v < 11 ->
  fst (wait_ready_to_arm required_value error_bits timeout s)
  = match Params.reads (console s) with
    | Params.TimedOut :: _ => Raised TypeError
    | _ => Return true
    end
  /\ inbox (snd (wait_ready_to_arm required_value error_bits timeout s)) = inbox s.
Proof.
  intros Hv H1 H2. pose proof (int_of_float_10 v H1 H2) as Hi.
  destruct s as [[table ws rs snt] l fm]. cbn [console Params.params] in Hv.
  unfold wait_ready_to_arm, wait_ekf_happy, bind, get_parameter.
  cbn [console inbox flightmode Params.reads].
  destruct rs as [|[|] rs];
    cbn [Params.get_parameter Params.expect Params.send Params.reads
         Params.params Params.writes Params.sent];
    rewrite ?Hv; cbn [raise ret fst snd inbox]; rewrite ?Hi;
    cbn [Z.eqb Pos.eqb ret fst snd inbox]; split; reflexivity.
Qed.

Lemma wait_ekf_happy_sitl_estimates_witness :
  fst (wait_ready_to_arm 831 3200 (Some 0) (bench (109 # 10) [])) = Return true
  /\ inbox (snd (wait_ready_to_arm 831 3200 (Some 0) (bench (109 # 10) []))) = [].
Proof.
  apply (wait_ekf_happy_sitl_estimates 831 3200 (Some 0) (bench (109 # 10) [])
           (109 # 10)).
  - vm_compute. reflexivity.
  - vm_compute. discriminate.
  - vm_compute. reflexivity.
Defined.

(** X27, on [wait_ekf_happy]:
    the estimator wait returns only [True], and
    then either the parameter table holds an [AHRS_EKF_TYPE] whose integer
    part is 10 and no telemetry was read, or an estimator report was in
    the inbox that has none of the error bits and all of the required
    bits; it raises [TypeError] before reading telemetry, or
    [AutoTestTimeoutException] when it has a timeout, and nothing else; it
    blocks only on an inbox it has used up. *)
Theorem wait_ekf_happy_outcomes required_value error_bits timeout s o s' :
  wait_ekf_happy required_value error_bits timeout s = (o, s') ->
  match o with
  | Return b =>
      b = true
      /\ ((exists v, Params.params (console s) !! "AHRS_EKF_TYPE" = Some v
                     /\ int_of_float v = 10%Z /\ inbox s' = inbox s)
          \/ exists f, In (EKF_STATUS_REPORT f) (inbox s)
                       /\ healthy required_value error_bits f)
  | Raised e =>
      (e = TypeError /\ inbox s' = inbox s)
      \/ (e = AutoTestTimeoutException /\ timeout <> None)
  | Blocked => inbox s' = []
  end.
Proof.
  unfold wait_ekf_happy, bind at 1, get_parameter.
  pose proof (ParamsFacts.get_parameter_answer "AHRS_EKF_TYPE" 1 (console s)) as Ha.
  destruct (Params.get_parameter "AHRS_EKF_TYPE" 1 (console s)) as [[v|] p].
  - specialize (Ha v eq_refl).
    destruct (int_of_float v =? 10)%Z eqn:Hi.
    + intros [= <- <-]. split; [reflexivity|]. left. exists v.
      apply Z.eqb_eq in Hi. auto.
    + set (s0 := mkSession p (inbox s) (flightmode s)).
      destruct (get_sim_time s0) as [[tstart|e|] s1] eqn:Hnow.
      * rewrite (session_bind_return _ _ _ _ _ Hnow).
        apply get_sim_time_read_on in Hnow. destruct Hnow as (Hr & Hl & _).
        intros Hrun. apply wait_ekf_happy_loop_sound in Hrun;
          [|subst s0; cbn [inbox] in Hl; lia].
        destruct o as [b|e|]; [| |exact Hrun].
        -- destruct Hrun as [-> (f & Hf & Hh)]. split; [reflexivity|]. right.
           exists f. split; [|exact Hh].
           apply (read_on_in s0 s1 _ Hr Hf).
        -- destruct Hrun as [-> (t' & t & -> & _)]. right.
           split; [reflexivity|discriminate].
      * exfalso. destruct (session_get_sim_time_cases s0)
          as [(? & H & _)|(? & ? & ? & H & _)]; rewrite H in Hnow; discriminate.
      * destruct (session_get_sim_time_cases s0)
          as [(s2 & H & H1 & _)|(? & ? & ? & H & _)];
          rewrite H in Hnow; [|discriminate].
        injection Hnow as <-.
        rewrite (session_bind_blocked _ _ _ _ H). intros [= <- <-]. exact H1.
  - intros [= <- <-]. left. split; reflexivity.
Qed.

Lemma wait_ekf_happy_outcomes_witness :
  true = true
  /\ ((exists v, Params.params (console
                   (bench 3 [SYSTEM_TIME 0; EKF_STATUS_REPORT 831; SYSTEM_TIME 0]))
                 !! "AHRS_EKF_TYPE" = Some v
                 /\ int_of_float v = 10%Z
                 /\ [] = inbox (bench 3 [SYSTEM_TIME 0; EKF_STATUS_REPORT 831;
                                         SYSTEM_TIME 0]))
      \/ exists f, In (EKF_STATUS_REPORT f)
                     (inbox (bench 3 [SYSTEM_TIME 0; EKF_STATUS_REPORT 831;
                                      SYSTEM_TIME 0]))
                   /\ healthy 831 3200 f).
Proof.
  assert (E : wait_ekf_happy 831 3200 None
                (bench 3 [SYSTEM_TIME 0; EKF_STATUS_REPORT 831; SYSTEM_TIME 0])
              = (Return true,
                 mkSession (Params.mkMAVProxy {[ "AHRS_EKF_TYPE" := 3 ]} [] []
                              [Params.ParamFetch "AHRS_EKF_TYPE"]) [] ""))
    by (vm_compute; reflexivity).
  exact (wait_ekf_happy_outcomes _ _ _ _ _ _ E).
Defined.







End TelemetryFacts.
